(** * Webhook configuration generator: descriptors, options and object assembly

    A shallow embedding of the two Go files of package [webhook]: the
    admission webhook descriptor (defaulting, accessors, validation) and the
    generator options (defaulting, client configuration, grouping and sorting
    of the webhook entries, Service construction).

    Go strings are byte sequences: they are [string] here, one [ascii] per
    byte.  Pointers that may be nil are [option]s.  Errors are values of the
    inductive type [error]; a function returning [(T, error)] returns a
    [result T]. *)

From Stdlib Require Import ZArith List Bool Ascii String Lia.
From Stdlib Require Import Permutation Sorted.
From Stdlib Require DecimalString.
Import ListNotations.

Local Open Scope string_scope.
Local Open Scope Z_scope.

(** ** Kubernetes API types used by the package *)

Module K8s.

(** admissionregistration/v1beta1 RuleWithOperations, flattened. *)
Record RuleWithOperations := mkRule {
  Operations  : list string;
  APIGroups   : list string;
  APIVersions : list string;
  Resources   : list string
}.

Definition FailurePolicyType := string.

Inductive LabelSelectorOperator :=
| LabelSelectorOpIn
| LabelSelectorOpNotIn
| LabelSelectorOpExists
| LabelSelectorOpDoesNotExist.

Record LabelSelectorRequirement := mkRequirement {
  Key      : string;
  Operator : LabelSelectorOperator;
  Values   : list string
}.

Record LabelSelector := mkLabelSelector {
  MatchLabels      : list (string * string);
  MatchExpressions : list LabelSelectorRequirement
}.

Record ServiceReference := mkServiceReference {
  sr_Namespace : string;
  sr_Name      : string;
  sr_Path      : option string
}.

Record WebhookClientConfig := mkClientConfig {
  cc_URL      : option string;
  cc_Service  : option ServiceReference;
  cc_CABundle : list ascii
}.

(** One entry of a webhook configuration. *)
Record Webhook := mkWebhook {
  wh_Name              : string;
  wh_ClientConfig      : WebhookClientConfig;
  wh_Rules             : list RuleWithOperations;
  wh_FailurePolicy     : option FailurePolicyType;
  wh_NamespaceSelector : option LabelSelector
}.

Record TypeMeta := mkTypeMeta {
  APIVersion : string;
  Kind       : string
}.

Record ObjectMeta := mkObjectMeta {
  om_Name        : string;
  om_Namespace   : string;
  om_Annotations : list (string * string)
}.

Record ServicePort := mkServicePort {
  sp_Port       : Z;
  sp_TargetPort : Z
}.

Record ServiceSpec := mkServiceSpec {
  ss_Selector : list (string * string);
  ss_Ports    : list ServicePort
}.

(** The dynamic types a non-nil runtime.Object of this package can have. *)
Inductive Object :=
| MutatingWebhookConfiguration (tm : TypeMeta) (om : ObjectMeta) (webhooks : list Webhook)
| ValidatingWebhookConfiguration (tm : TypeMeta) (om : ObjectMeta) (webhooks : list Webhook)
| Service (tm : TypeMeta) (om : ObjectMeta) (spec : ServiceSpec).

Definition GroupName : string := "admissionregistration.k8s.io".

(** metav1.GroupVersion.String *)
Definition GroupVersion_String (group version : string) : string :=
  if (String.length group =? 0)%nat then version else group ++ "/" ++ version.

End K8s.

(** ** Go library functions the package calls

    [strconv.Itoa], [net.JoinHostPort] and the parts of [net/url] behind
    [url.Parse] and [URL.String], written after the Go standard library
    (release 1.11). *)

Module strconv.

(** strconv.Itoa: decimal digits, with a leading minus sign below zero. *)
Definition Itoa (n : Z) : string :=
  DecimalString.NilZero.string_of_int (Z.to_int n).

End strconv.

Module strs.

(** Bytes matched by the character class [a-zA-Z0-9]. *)
Definition is_digit (c : ascii) : bool :=
  let n := nat_of_ascii c in ((48 <=? n) && (n <=? 57))%nat.
Definition is_upper (c : ascii) : bool :=
  let n := nat_of_ascii c in ((65 <=? n) && (n <=? 90))%nat.
Definition is_lower (c : ascii) : bool :=
  let n := nat_of_ascii c in ((97 <=? n) && (n <=? 122))%nat.
Definition is_alnum (c : ascii) : bool :=
  is_lower c || is_upper c || is_digit c.


Definition to_lower_ascii (c : ascii) : ascii :=
  if is_upper c then ascii_of_nat (nat_of_ascii c + 32) else c.

(** strings.ToLower, on the ASCII strings it is applied to here. *)
Fixpoint ToLower (s : string) : string :=
  match s with
  | EmptyString => EmptyString
  | String c s' => String (to_lower_ascii c) (ToLower s')
  end.

(** strings.IndexByte(s, c) >= 0 *)
Fixpoint ContainsByte (s : string) (c : ascii) : bool :=
  match s with
  | EmptyString => false
  | String a s' => Ascii.eqb a c || ContainsByte s' c
  end.

(** strings.Count(s, c) *)
Fixpoint CountByte (s : string) (c : ascii) : nat :=
  match s with
  | EmptyString => O
  | String a s' => ((if Ascii.eqb a c then 1 else 0) + CountByte s' c)%nat
  end.

(** [s[:i], s[i:]] for [i] the first index of byte [c] in [s]. *)
Fixpoint CutFirst (s : string) (c : ascii) : option (string * string) :=
  match s with
  | EmptyString => None
  | String a s' =>
      if Ascii.eqb a c then Some (EmptyString, s)
      else match CutFirst s' c with
           | Some (x, y) => Some (String a x, y)
           | None => None
           end
  end.

(** [s[:i], s[i:]] for [i] the last index of byte [c] in [s]. *)
Fixpoint CutLast (s : string) (c : ascii) : option (string * string) :=
  match s with
  | EmptyString => None
  | String a s' =>
      match CutLast s' c with
      | Some (x, y) => Some (String a x, y)
      | None => if Ascii.eqb a c then Some (EmptyString, s) else None
      end
  end.

(** [s[:i], s[i:]] for [i] the first index of the substring [sub] in [s]. *)
Fixpoint CutFirstString (s sub : string) : option (string * string) :=
  if String.prefix sub s then Some (EmptyString, s)
  else match s with
       | EmptyString => None
       | String a s' =>
           match CutFirstString s' sub with
           | Some (x, y) => Some (String a x, y)
           | None => None
           end
       end.

Definition HasPrefix (s pre : string) : bool := String.prefix pre s.

(** The last byte of a string and what precedes it. *)
Fixpoint Unsnoc (s : string) : option (string * ascii) :=
  match s with
  | EmptyString => None
  | String a s' =>
      match Unsnoc s' with
      | None => Some (EmptyString, a)
      | Some (x, z) => Some (String a x, z)
      end
  end.

Fixpoint All (p : ascii -> bool) (s : string) : bool :=
  match s with
  | EmptyString => true
  | String a s' => p a && All p s'
  end.

End strs.

Module url.

Import strs.

Inductive encoding :=
| encodePath
| encodePathSegment
| encodeHost
| encodeZone
| encodeUserPassword
| encodeQueryComponent
| encodeFragment.

Definition is_host_mode (mode : encoding) : bool :=
  match mode with encodeHost | encodeZone => true | _ => false end.

Inductive parse_error :=
| EscapeError (s : string)          (* invalid URL escape *)
| InvalidHostError (s : string)     (* invalid character in host name *)
| MissingProtocolScheme
| FirstPathSegmentColon
| MissingBracket                    (* missing ']' in host *)
| InvalidPort (s : string)
| InvalidUserinfo.

Inductive pres (A : Type) :=
| ROk (a : A)
| RErr (e : parse_error).
Arguments ROk {A} a.
Arguments RErr {A} e.

Record Userinfo := mkUserinfo {
  username    : string;
  password    : string;
  passwordSet : bool
}.

Record URL := mkURL {
  Scheme     : string;
  Opaque     : string;
  User       : option Userinfo;
  Host       : string;
  Path       : string;
  RawPath    : string;
  ForceQuery : bool;
  RawQuery   : string;
  Fragment   : string
}.

Definition set_Path (u : URL) (p : string) : URL :=
  mkURL (Scheme u) (Opaque u) (User u) (Host u) p (RawPath u)
        (ForceQuery u) (RawQuery u) (Fragment u).

Definition byte_in (c : ascii) (set : string) : bool := ContainsByte set c.

Definition dquote : ascii := ascii_of_nat 34.

Definition ishex (c : ascii) : bool :=
  let n := nat_of_ascii c in
  (((48 <=? n) && (n <=? 57)) || ((97 <=? n) && (n <=? 102)) ||
   ((65 <=? n) && (n <=? 70)))%nat.

Definition unhex (c : ascii) : nat :=
  let n := nat_of_ascii c in
  if ((48 <=? n) && (n <=? 57))%nat then (n - 48)%nat
  else if ((97 <=? n) && (n <=? 102))%nat then (n - 97 + 10)%nat
  else if ((65 <=? n) && (n <=? 70))%nat then (n - 65 + 10)%nat
  else O.

Definition shouldEscape (c : ascii) (mode : encoding) : bool :=
  if is_upper c || is_lower c || is_digit c then false
  else if is_host_mode mode &&
          (byte_in c "!$&'()*+,;=:[]<>" || Ascii.eqb c dquote) then false
  else if byte_in c "-_.~" then false
  else if byte_in c "$&+,/:;=?@" then
    match mode with
    | encodePath => Ascii.eqb c "?"
    | encodePathSegment => byte_in c "/;,?"
    | encodeUserPassword => byte_in c "@/?:"
    | encodeQueryComponent => true
    | encodeFragment => false
    | encodeHost | encodeZone => true
    end
  else true.

Definition upperhex (n : nat) : ascii :=
  match String.get n "0123456789ABCDEF" with
  | Some c => c
  | None => "0"%char
  end.

Fixpoint escape (s : string) (mode : encoding) : string :=
  match s with
  | EmptyString => EmptyString
  | String c s' =>
      if Ascii.eqb c " " && match mode with encodeQueryComponent => true | _ => false end
      then String "+" (escape s' mode)
      else if shouldEscape c mode then
        String "%" (String (upperhex (nat_of_ascii c / 16))
                   (String (upperhex (nat_of_ascii c mod 16)) (escape s' mode)))
      else String c (escape s' mode)
  end.

Definition take3 (s : string) : string := String.substring 0 3 s.

(** unescape checks the string left to right and decodes it; the first
    malformed position gives the error. *)
Fixpoint unescape (s : string) (mode : encoding) : pres string :=
  let cons (c : ascii) (r : pres string) : pres string :=
    match r with ROk x => ROk (String c x) | RErr e => RErr e end in
  match s with
  | EmptyString => ROk EmptyString
  | String c s' =>
      if Ascii.eqb c "%" then
        match s' with
        | String h1 (String h2 rest) =>
            if negb (ishex h1) || negb (ishex h2) then RErr (EscapeError (take3 s))
            else if match mode with encodeHost => true | _ => false end &&
                    (unhex h1 <? 8)%nat && negb (String.eqb (take3 s) "%25")
            then RErr (EscapeError (take3 s))
            else
              let v := ascii_of_nat (unhex h1 * 16 + unhex h2) in
              if match mode with encodeZone => true | _ => false end &&
                 negb (String.eqb (take3 s) "%25") && negb (Ascii.eqb v " ") &&
                 shouldEscape v encodeHost
              then RErr (EscapeError (take3 s))
              else cons v (unescape rest mode)
        | _ => RErr (EscapeError (take3 s))
        end
      else if Ascii.eqb c "+" then
        cons (match mode with encodeQueryComponent => " " | _ => "+" end)%char
             (unescape s' mode)
      else if is_host_mode mode && (nat_of_ascii c <? 128)%nat &&
              shouldEscape c encodeHost
      then RErr (InvalidHostError (String c EmptyString))
      else cons c (unescape s' mode)
  end.

Inductive scheme_scan :=
| SchemeAt (scheme rest : string)
| SchemeNone
| SchemeMissing.

(** The loop of getscheme; [first] says that the index is 0. *)
Fixpoint scan_scheme (first : bool) (s : string) : scheme_scan :=
  let continue (c : ascii) (s' : string) :=
    match scan_scheme false s' with
    | SchemeAt sc r => SchemeAt (String c sc) r
    | x => x
    end in
  match s with
  | EmptyString => SchemeNone
  | String c s' =>
      if is_lower c || is_upper c then continue c s'
      else if is_digit c || byte_in c "+-." then
        if first then SchemeNone else continue c s'
      else if Ascii.eqb c ":" then
        if first then SchemeMissing else SchemeAt EmptyString s'
      else SchemeNone
  end.

Definition getscheme (rawurl : string) : pres (string * string) :=
  match scan_scheme true rawurl with
  | SchemeAt sc r => ROk (sc, r)
  | SchemeNone => ROk (EmptyString, rawurl)
  | SchemeMissing => RErr MissingProtocolScheme
  end.

Definition tail (s : string) : string :=
  match s with EmptyString => EmptyString | String _ s' => s' end.

(** split(s, c, cutc) for a one-byte separator. *)
Definition split (s : string) (c : ascii) (cutc : bool) : string * string :=
  match CutFirst s c with
  | None => (s, EmptyString)
  | Some (x, y) => if cutc then (x, tail y) else (x, y)
  end.

Definition validOptionalPort (port : string) : bool :=
  match port with
  | EmptyString => true
  | String c digits => Ascii.eqb c ":" && All is_digit digits
  end.

Definition validUserinfo (s : string) : bool :=
  All (fun r => is_upper r || is_lower r || is_digit r ||
                byte_in r "-._:~!$&'()*+,;=%@") s.

Definition bind {A B} (r : pres A) (k : A -> pres B) : pres B :=
  match r with ROk a => k a | RErr e => RErr e end.

Definition parseHost (host : string) : pres string :=
  let plain := unescape host encodeHost in
  if HasPrefix host "[" then
    match CutLast host "]" with
    | None => RErr MissingBracket
    | Some (before, from) =>            (* host[:i], host[i:] *)
        let colonPort := tail from in
        if negb (validOptionalPort colonPort) then RErr (InvalidPort colonPort)
        else
          match CutFirstString before "%25" with
          | Some (h1, z) =>             (* host[:zone], host[zone:i] *)
              bind (unescape h1 encodeHost) (fun host1 =>
              bind (unescape z encodeZone) (fun host2 =>
              bind (unescape from encodeHost) (fun host3 =>
              ROk (host1 ++ host2 ++ host3))))
          | None => plain
          end
    end
  else
    match CutLast host ":" with
    | Some (_, colonPort) =>
        if negb (validOptionalPort colonPort) then RErr (InvalidPort colonPort)
        else plain
    | None => plain
    end.

Definition parseAuthority (authority : string) : pres (option Userinfo * string) :=
  match CutLast authority "@" with
  | None => bind (parseHost authority) (fun host => ROk (None, host))
  | Some (userinfo, from) =>
      bind (parseHost (tail from)) (fun host =>
      if negb (validUserinfo userinfo) then RErr InvalidUserinfo
      else if negb (ContainsByte userinfo ":") then
        bind (unescape userinfo encodeUserPassword) (fun u =>
        ROk (Some (mkUserinfo u EmptyString false), host))
      else
        let '(username, password) := split userinfo ":" true in
        bind (unescape username encodeUserPassword) (fun u =>
        bind (unescape password encodeUserPassword) (fun pw =>
        ROk (Some (mkUserinfo u pw true), host))))
  end.

(** (u *URL).setPath of net/url: fills Path and RawPath from [p]. *)
Definition URL_setPath (u : URL) (p : string) : pres URL :=
  bind (unescape p encodePath) (fun path =>
  let raw := if String.eqb p (escape path encodePath) then EmptyString else p in
  ROk (mkURL (Scheme u) (Opaque u) (User u) (Host u) path raw
             (ForceQuery u) (RawQuery u) (Fragment u))).

Definition validEncodedPath (s : string) : bool :=
  All (fun c => byte_in c "!$&'()*+,;=:@" || byte_in c "[]" || Ascii.eqb c "%" ||
                negb (shouldEscape c encodePath)) s.

Definition EscapedPath (u : URL) : string :=
  if negb (String.eqb (RawPath u) EmptyString) && validEncodedPath (RawPath u) &&
     match unescape (RawPath u) encodePath with
     | ROk p => String.eqb p (Path u)
     | RErr _ => false
     end
  then RawPath u
  else if String.eqb (Path u) "*" then "*"
  else escape (Path u) encodePath.

Definition Userinfo_String (u : Userinfo) : string :=
  let s := escape (username u) encodeUserPassword in
  if passwordSet u then s ++ ":" ++ escape (password u) encodeUserPassword else s.

Definition nonempty (s : string) : bool := negb (String.eqb s EmptyString).

Definition URL_String (u : URL) : string :=
  let buf0 := if nonempty (Scheme u) then Scheme u ++ ":" else EmptyString in
  let buf1 :=
    if nonempty (Opaque u) then buf0 ++ Opaque u
    else
      let auth :=
        if nonempty (Scheme u) || nonempty (Host u) ||
           match User u with Some _ => true | None => false end
        then
          (if nonempty (Host u) || nonempty (Path u) ||
              match User u with Some _ => true | None => false end
           then "//" else EmptyString) ++
          (match User u with
           | Some ui => Userinfo_String ui ++ "@"
           | None => EmptyString
           end) ++
          (if nonempty (Host u) then escape (Host u) encodeHost else EmptyString)
        else EmptyString in
      let buf := buf0 ++ auth in
      let path := EscapedPath u in
      let buf :=
        match path with
        | String c _ =>
            if negb (Ascii.eqb c "/") && nonempty (Host u) then buf ++ "/" else buf
        | EmptyString => buf
        end in
      let buf :=
        if String.eqb buf EmptyString then
          match CutFirst path ":" with
          | Some (seg, _) => if negb (ContainsByte seg "/") then "./" else EmptyString
          | None => EmptyString
          end
        else buf in
      buf ++ path in
  let buf2 :=
    if ForceQuery u || nonempty (RawQuery u) then buf1 ++ "?" ++ RawQuery u else buf1 in
  if nonempty (Fragment u) then buf2 ++ "#" ++ escape (Fragment u) encodeFragment
  else buf2.

Definition emptyURL : URL :=
  mkURL EmptyString EmptyString None EmptyString EmptyString EmptyString
        false EmptyString EmptyString.

(** parse(rawurl, false) *)
Definition parse (rawurl : string) : pres URL :=
  if String.eqb rawurl "*" then
    ROk (mkURL EmptyString EmptyString None EmptyString "*" EmptyString
               false EmptyString EmptyString)
  else
    bind (getscheme rawurl) (fun '(scheme, rest) =>
    let scheme := ToLower scheme in
    let '(force, rest, rawquery) :=
      match Unsnoc rest with
      | Some (init, last) =>
          if Ascii.eqb last "?" && (CountByte rest "?" =? 1)%nat
          then (true, init, EmptyString)
          else let '(r, q) := split rest "?" true in (false, r, q)
      | None => let '(r, q) := split rest "?" true in (false, r, q)
      end in
    let withPath (user : option Userinfo) (host rest : string) :=
      URL_setPath (mkURL scheme EmptyString user host EmptyString EmptyString
                         force rawquery EmptyString) rest in
    let authority_and_path (_ : unit) :=
      if HasPrefix rest "//" then
        (* Scheme != "" || !strings.HasPrefix(rest, "///"), viaRequest false *)
        if nonempty scheme || negb (HasPrefix rest "///") then
          let '(authority, rest') := split (tail (tail rest)) "/" false in
          bind (parseAuthority authority) (fun '(user, host) =>
          withPath user host rest')
        else withPath None EmptyString rest
      else withPath None EmptyString rest in
    if negb (HasPrefix rest "/") then
      if nonempty scheme then
        (* We consider rootless paths per RFC 3986 as opaque. *)
        ROk (mkURL scheme rest None EmptyString EmptyString EmptyString
                   force rawquery EmptyString)
      else
        let '(segment, _) := split rest "/" false in
        if ContainsByte segment ":" then RErr FirstPathSegmentColon
        else authority_and_path tt
    else authority_and_path tt).

Definition Parse (rawurl : string) : pres URL :=
  let '(u, frag) := split rawurl "#" true in
  bind (parse u) (fun url =>
  if String.eqb frag EmptyString then ROk url
  else
    bind (unescape frag encodeFragment) (fun f =>
    ROk (mkURL (Scheme url) (Opaque url) (User url) (Host url) (Path url)
               (RawPath url) (ForceQuery url) (RawQuery url) f))).

End url.

Module net.

Definition JoinHostPort (host port : string) : string :=
  (* We assume that host is a literal IPv6 address if host has colons. *)
  if strs.ContainsByte host ":"%char then "[" ++ host ++ "]:" ++ port
  else host ++ ":" ++ port.

End net.

(** ** Errors *)

(** Modelled from the spec: the declaration of [webhookType] and of its two
    constants is missing from the sources.  The spec gives two supported
    kinds, Mutating and Validating, and lets [Validate] meet a kind that is
    neither; [webhookTypeOther] stands for every such value. *)
Inductive webhookType :=
| webhookTypeMutating
| webhookTypeValidating
| webhookTypeOther (n : Z).

Definition webhookType_eqb (a b : webhookType) : bool :=
  match a, b with
  | webhookTypeMutating, webhookTypeMutating => true
  | webhookTypeValidating, webhookTypeValidating => true
  | webhookTypeOther n, webhookTypeOther m => n =? m
  | _, _ => false
  end.

Inductive error :=
| ErrRulesEmpty                       (* "field rules should not be empty" *)
| ErrNameEmpty                        (* "field name should not be empty" *)
| ErrUnsupportedType (t : webhookType)(* "unsupported Type: %v, only ..." *)
| ErrPathEmpty                        (* "field path should not be empty" *)
| ErrURLAndService                    (* "URL and service can't be set at the same time" *)
| ErrURLParse (e : url.parse_error).  (* error returned by url.Parse *)

Inductive result (A : Type) :=
| Ok (a : A)
| Err (e : error).
Arguments Ok {A} a.
Arguments Err {A} e.

(** ** The webhook descriptor *)

Definition len_string (s : string) : Z := Z.of_nat (String.length s).
Definition len {A} (l : list A) : Z := Z.of_nat (List.length l).

Record admissionWebhook := mkAdmissionWebhook {
  name              : string;
  t                 : webhookType;
  path              : string;
  rules             : list K8s.RuleWithOperations;
  failurePolicy     : option K8s.FailurePolicyType;
  namespaceSelector : option K8s.LabelSelector;
  once              : bool;  (* sync.Once: true when its function has run *)
  once_runs         : nat    (* ghost: how often once.Do has run its function *)
}.

Definition set_name (w : admissionWebhook) (s : string) : admissionWebhook :=
  mkAdmissionWebhook s (t w) (path w) (rules w) (failurePolicy w)
                     (namespaceSelector w) (once w) (once_runs w).
Definition set_path (w : admissionWebhook) (s : string) : admissionWebhook :=
  mkAdmissionWebhook (name w) (t w) s (rules w) (failurePolicy w)
                     (namespaceSelector w) (once w) (once_runs w).
Definition set_namespaceSelector (w : admissionWebhook) (s : option K8s.LabelSelector)
  : admissionWebhook :=
  mkAdmissionWebhook (name w) (t w) (path w) (rules w) (failurePolicy w)
                     s (once w) (once_runs w).
Definition set_once (w : admissionWebhook) (b : bool) (n : nat) : admissionWebhook :=
  mkAdmissionWebhook (name w) (t w) (path w) (rules w) (failurePolicy w)
                     (namespaceSelector w) b n.

(** regexp.MustCompile("[^a-zA-Z0-9]+").ReplaceAllString(s, repl), for a
    replacement without [$]: each maximal run of bytes outside the class
    [a-zA-Z0-9] is replaced by [repl]; [in_run] says that the byte before was
    outside the class.  A byte of a multi-byte UTF-8 sequence is at least
    0x80 and so always outside the class. *)
Fixpoint replace_runs (in_run : bool) (s repl : string) : string :=
  match s with
  | EmptyString => EmptyString
  | String c s' =>
      if strs.is_alnum c then String c (replace_runs false s' repl)
      else if in_run then replace_runs true s' repl
      else repl ++ replace_runs true s' repl
  end.

Definition ReplaceAllString (s repl : string) : string := replace_runs false s repl.

Definition setDefaults (w : admissionWebhook) : admissionWebhook :=
  let after_path : option admissionWebhook :=
    if len_string (path w) =? 0 then
      match rules w with
      | [] => None                       (* len(w.rules) == 0 *)
      | r :: _ =>
          match K8s.Resources r with
          | [] => None                   (* len(w.rules[0].Resources) == 0 *)
          | res :: _ =>
              if webhookType_eqb (t w) webhookTypeMutating then
                Some (set_path w ("/mutate-" ++ res))
              else if webhookType_eqb (t w) webhookTypeValidating then
                Some (set_path w ("/validate-" ++ res))
              else Some w
          end
      end
    else Some w in
  match after_path with
  | None => w                            (* can't do defaulting, skip it *)
  | Some w1 =>
      if len_string (name w1) =? 0 then
        let processedPath := strs.ToLower (ReplaceAllString (path w1) "") in
        set_name w1 (processedPath ++ ".example.com")
      else w1
  end.

(** w.once.Do(w.setDefaults): runs the function unless it has run before. *)
Definition once_Do (f : admissionWebhook -> admissionWebhook) (w : admissionWebhook)
  : admissionWebhook :=
  if once w then w else set_once (f w) true (S (once_runs w)).

Definition GetName (w : admissionWebhook) : admissionWebhook * string :=
  let w := once_Do setDefaults w in (w, name w).

Definition GetPath (w : admissionWebhook) : admissionWebhook * string :=
  let w := once_Do setDefaults w in (w, path w).

Definition GetType (w : admissionWebhook) : admissionWebhook * webhookType :=
  let w := once_Do setDefaults w in (w, t w).

(** Validate returns the descriptor as the call leaves it and the error, if
    any. *)
Definition Validate (w : admissionWebhook) : admissionWebhook * option error :=
  let w := once_Do setDefaults w in
  if len (rules w) =? 0 then (w, Some ErrRulesEmpty)
  else if len_string (name w) =? 0 then (w, Some ErrNameEmpty)
  else if negb (webhookType_eqb (t w) webhookTypeMutating) &&
          negb (webhookType_eqb (t w) webhookTypeValidating)
       then (w, Some (ErrUnsupportedType (t w)))
  else if len_string (path w) =? 0 then (w, Some ErrPathEmpty)
  else (w, None).

(** ** The generator options *)

(** The struct [service] of the package (the name is taken by the field). *)
Record service_t := mkServiceT {
  service_name      : string;
  service_namespace : string;
  selectors         : list (string * string)
}.

(** The registry is a Go map from path to descriptor: an association list
    with pairwise distinct keys, whose order carries no meaning; [None] is
    the nil map. *)
Definition registry_t := list (string * admissionWebhook).

Record generatorOptions := mkOptions {
  registry                    : option registry_t;
  port                        : Z;      (* int32 *)
  certDir                     : string;
  mutatingWebhookConfigName   : string;
  validatingWebhookConfigName : string;
  secret                      : option (string * string);
  service                     : option service_t;
  host                        : option string
}.

Definition set_registry (o : generatorOptions) (r : option registry_t) : generatorOptions :=
  mkOptions r (port o) (certDir o) (mutatingWebhookConfigName o)
            (validatingWebhookConfigName o) (secret o) (service o) (host o).

Definition entries (o : generatorOptions) : registry_t :=
  match registry o with Some l => l | None => [] end.

Definition isNil {A} (x : option A) : bool :=
  match x with None => true | Some _ => false end.

(** path.Join("k8s-webhook-server", "cert") *)
Definition default_certDir : string := "k8s-webhook-server/cert".

Definition setDefault (o : generatorOptions) : generatorOptions :=
  let registry := match registry o with None => Some [] | r => r end in
  let port := if port o <=? 0 then 443 else port o in
  let certDir := if len_string (certDir o) =? 0 then default_certDir else certDir o in
  let mname := if len_string (mutatingWebhookConfigName o) =? 0
               then "mutating-webhook-configuration"
               else mutatingWebhookConfigName o in
  let vname := if len_string (validatingWebhookConfigName o) =? 0
               then "validating-webhook-configuration"
               else validatingWebhookConfigName o in
  let host := if isNil (host o) && isNil (service o) then Some "localhost" else host o in
  mkOptions registry port certDir mname vname (secret o) (service o) host.

Definition getClientConfig (o : generatorOptions) : result K8s.WebhookClientConfig :=
  if negb (isNil (host o)) && negb (isNil (service o)) then Err ErrURLAndService
  else
    let url :=
      match host o with
      | Some h =>
          let u := url.mkURL "https" "" None
                     (net.JoinHostPort h (strconv.Itoa (port o))) "" "" false "" "" in
          Some (url.URL_String u)
      | None => None
      end in
    let svc :=
      match service o with
      | Some s => Some (K8s.mkServiceReference (service_namespace s) (service_name s) None)
      | None => None
      end in
    Ok (K8s.mkClientConfig url svc []).

(** setPath changes the client configuration in place and returns an error
    or nil: the configuration as the call leaves it, and the error. *)
Definition setPath (cc : K8s.WebhookClientConfig) (path : string)
  : K8s.WebhookClientConfig * option error :=
  let after_url : result K8s.WebhookClientConfig :=
    match K8s.cc_URL cc with
    | Some raw =>
        match url.Parse raw with
        | url.RErr e => Err (ErrURLParse e)
        | url.ROk u =>
            let urlString := url.URL_String (url.set_Path u path) in
            Ok (K8s.mkClientConfig (Some urlString) (K8s.cc_Service cc) (K8s.cc_CABundle cc))
        end
    | None => Ok cc
    end in
  match after_url with
  | Err e => (cc, Some e)
  | Ok cc1 =>
      match K8s.cc_Service cc1 with
      | Some sr =>
          (K8s.mkClientConfig (K8s.cc_URL cc1)
             (Some (K8s.mkServiceReference (K8s.sr_Namespace sr) (K8s.sr_Name sr) (Some path)))
             (K8s.cc_CABundle cc1), None)
      | None => (cc1, None)
      end
  end.

(** Returns the pair the Go function returns: the configuration pointer (nil
    after a failed getClientConfig) and the error. *)
Definition getClientConfigWithPath (o : generatorOptions) (path : string)
  : option K8s.WebhookClientConfig * option error :=
  match getClientConfig o with
  | Err e => (None, Some e)
  | Ok cc => let '(cc', err) := setPath cc path in (Some cc', err)
  end.

Definition default_namespaceSelector : K8s.LabelSelector :=
  K8s.mkLabelSelector []
    [K8s.mkRequirement "control-plane" K8s.LabelSelectorOpDoesNotExist []].

(** The method admissionWebhook: it may set the descriptor's namespace
    selector, so the descriptor is returned with the entry. *)
Definition admissionWebhook_entry (o : generatorOptions) (path : string) (wh : admissionWebhook)
  : admissionWebhook * result K8s.Webhook :=
  let wh :=
    if isNil (namespaceSelector wh) &&
       match service o with
       | Some s => 0 <? len_string (service_namespace s)
       | None => false
       end
    then set_namespaceSelector wh (Some default_namespaceSelector)
    else wh in
  let webhook := K8s.mkWebhook (name wh) (K8s.mkClientConfig None None [])
                   (rules wh) (failurePolicy wh) (namespaceSelector wh) in
  match getClientConfigWithPath o path with
  | (Some cc, None) =>
      (wh, Ok (K8s.mkWebhook (K8s.wh_Name webhook) cc (K8s.wh_Rules webhook)
                 (K8s.wh_FailurePolicy webhook) (K8s.wh_NamespaceSelector webhook)))
  | (_, Some err) => (wh, Err err)
  | (None, None) => (wh, Ok webhook)  (* not reached: a nil pointer has an error *)
  end.

(** sort.Slice(webhooks, func(i, j) { return webhooks[i].Name < webhooks[j].Name }).
    Go strings compare byte by byte, a proper prefix first, as [String.ltb].
    sort.Slice is not stable: it returns the slice sorted, and says nothing of
    the order among elements that compare equal.  Slices of fewer than seven
    elements are sorted by insertion alone in every Go release: element [i]
    moves left past each predecessor it is less than.  [bubble_left x acc]
    does that move, [acc] being the sorted prefix with the nearest predecessor
    first, and [sort_Slice] is that insertion sort.  On longer slices Go may
    leave elements of equal name in another order than [sort_Slice] does.
    The results below do not rest on that order: with pairwise distinct names
    there is one sorted arrangement only ([sorted_arrangement_unique]), and
    any sorted arrangement of the entries a loop appends is what [sort_Slice]
    returns for another order of visiting the registry
    ([any_sorted_arrangement_covered]), so what holds for every visiting order
    holds for every sorting algorithm. *)
Definition less (a b : K8s.Webhook) : bool :=
  String.ltb (K8s.wh_Name a) (K8s.wh_Name b).

Fixpoint bubble_left (x : K8s.Webhook) (acc : list K8s.Webhook) : list K8s.Webhook :=
  match acc with
  | [] => [x]
  | y :: acc' => if less x y then y :: bubble_left x acc' else x :: acc
  end.

Definition sort_Slice (l : list K8s.Webhook) : list K8s.Webhook :=
  rev (fold_left (fun acc x => bubble_left x acc) l []).

(** A [range] over a Go map visits the entries in an unspecified order, which
    may differ from one loop to the next: each loop takes the order as a
    function giving the sequence visited. *)
Definition mapOrder := registry_t -> registry_t.

Definition range_ok (f : mapOrder) : Prop := forall l, Permutation (f l) l.

Definition runtime_Object := option K8s.Object.   (* None: the nil interface *)

(** The first loop of whConfigs over the entries in the order visited: the
    descriptors as validation leaves them, or the first error met. *)
Fixpoint validate_range (l : registry_t) : result registry_t :=
  match l with
  | [] => Ok []
  | (p, webhook) :: l' =>
      match Validate webhook with
      | (_, Some err) => Err err
      | (webhook', None) =>
          match validate_range l' with
          | Ok r => Ok ((p, webhook') :: r)
          | Err e => Err e
          end
      end
  end.

(** The loop of mutatingWHConfigs and validatingWHConfigs, for the kind
    [ty], over the entries in the order visited: the descriptors as the loop
    leaves them and the entries appended, or the first error met. *)
Fixpoint webhooks_range (o : generatorOptions) (ty : webhookType) (l : registry_t)
  : result (registry_t * list K8s.Webhook) :=
  match l with
  | [] => Ok ([], [])
  | (path, webhook) :: l' =>
      let '(webhook, ty') := GetType webhook in
      if negb (webhookType_eqb ty' ty) then
        match webhooks_range o ty l' with
        | Ok (r, whs) => Ok ((path, webhook) :: r, whs)
        | Err e => Err e
        end
      else
        match admissionWebhook_entry o path webhook with
        | (_, Err err) => Err err
        | (webhook, Ok wh) =>
            match webhooks_range o ty l' with
            | Ok (r, whs) => Ok ((path, webhook) :: r, wh :: whs)
            | Err e => Err e
            end
        end
  end.

Definition webhook_cert_annotation (key : string) : list (string * string) :=
  [(key, "webhook-cert")].

Section Generate.

(** The orders in which the three loops over the registry visit it. *)
Variables rangeValidate rangeMutating rangeValidating : mapOrder.

Definition mutatingWHConfigs (o : generatorOptions)
  : result (generatorOptions * runtime_Object) :=
  match webhooks_range o webhookTypeMutating (rangeMutating (entries o)) with
  | Err e => Err e
  | Ok (r, mutatingWebhooks) =>
      let o := set_registry o (Some r) in
      let mutatingWebhooks := sort_Slice mutatingWebhooks in
      if 0 <? len mutatingWebhooks then
        Ok (o, Some (K8s.MutatingWebhookConfiguration
                       (K8s.mkTypeMeta (K8s.GroupVersion_String K8s.GroupName "v1beta1")
                                       "MutatingWebhookConfiguration")
                       (K8s.mkObjectMeta (mutatingWebhookConfigName o) ""
                          (webhook_cert_annotation
                             "admissionwebhook.alpha.kubebuilder.io/ca-secret-name"))
                       mutatingWebhooks))
      else Ok (o, None)
  end.

Definition validatingWHConfigs (o : generatorOptions)
  : result (generatorOptions * runtime_Object) :=
  match webhooks_range o webhookTypeValidating (rangeValidating (entries o)) with
  | Err e => Err e
  | Ok (r, validatingWebhooks) =>
      let o := set_registry o (Some r) in
      let validatingWebhooks := sort_Slice validatingWebhooks in
      if 0 <? len validatingWebhooks then
        Ok (o, Some (K8s.ValidatingWebhookConfiguration
                       (K8s.mkTypeMeta (K8s.GroupVersion_String K8s.GroupName "v1beta1")
                                       "ValidatingWebhookConfiguration")
                       (K8s.mkObjectMeta (validatingWebhookConfigName o) ""
                          (webhook_cert_annotation
                             "admission.alpha.kubebuilder.io/ca-secret-name"))
                       validatingWebhooks))
      else Ok (o, None)
  end.

Definition whConfigs (o : generatorOptions)
  : result (generatorOptions * list runtime_Object) :=
  match validate_range (rangeValidate (entries o)) with
  | Err err => Err err
  | Ok r =>
      let o := set_registry o (Some r) in
      let objs : list runtime_Object := [] in
      match mutatingWHConfigs o with
      | Err err => Err err
      | Ok (o, mutatingWH) =>
          let objs := if isNil mutatingWH then objs else (objs ++ [mutatingWH])%list in
          match validatingWHConfigs o with
          | Err err => Err err
          | Ok (o, validatingWH) =>
              let objs := if isNil validatingWH then objs else (objs ++ [validatingWH])%list in
              Ok (o, objs)
          end
      end
  end.

Definition getService (o : generatorOptions) : runtime_Object :=
  match service o with
  | None => None
  | Some s =>
      Some (K8s.Service
              (K8s.mkTypeMeta "v1" "Service")
              (K8s.mkObjectMeta (service_name s) (service_namespace s)
                 (webhook_cert_annotation
                    "service.alpha.kubebuilder.io/serving-cert-secret-name"))
              (K8s.mkServiceSpec (selectors s)
                 [K8s.mkServicePort 443 (port o)]))
  end.

(** Generate: the options as the call leaves them and the objects, or the
    error.  A call that fails returns no objects; the descriptors it has
    changed by then are not part of the model. *)
Definition Generate (o : generatorOptions)
  : result (generatorOptions * list runtime_Object) :=
  (* do defaulting if necessary *)
  let o := setDefault o in
  match whConfigs o with
  | Err err => Err err
  | Ok (o, webhookConfigurations) =>
      let svc := getService o in
      let objects := (webhookConfigurations ++ [svc])%list in
      Ok (o, objects)
  end.

End Generate.

(** What a caller sees of a run: the objects or the error. *)
Definition output (r : result (generatorOptions * list runtime_Object))
  : result (list runtime_Object) :=
  match r with Ok (_, objs) => Ok objs | Err e => Err e end.

(** * Properties *)

(** ** Lengths and kinds *)

Lemma len_string_0 (s : string) : (len_string s =? 0) = true <-> s = "".
Proof.
  unfold len_string. destruct s; simpl.
  - split; reflexivity.
  - split; discriminate.
Qed.

Lemma len_string_0_false (s : string) : (len_string s =? 0) = false <-> s <> "".
Proof.
  rewrite <- len_string_0. destruct (len_string s =? 0); split; congruence.
Qed.

Lemma len_0 {A} (l : list A) : (len l =? 0) = true <-> l = [].
Proof.
  unfold len. destruct l; simpl.
  - split; reflexivity.
  - split; discriminate.
Qed.

Lemma len_pos {A} (l : list A) : (0 <? len l) = true <-> l <> [].
Proof.
  unfold len. destruct l; simpl.
  - split; [ discriminate | congruence ].
  - split; [ discriminate | reflexivity ].
Qed.

Lemma webhookType_eqb_eq (a b : webhookType) : webhookType_eqb a b = true <-> a = b.
Proof.
  destruct a, b; simpl; split; intro H; try reflexivity; try discriminate.
  - apply Z.eqb_eq in H. now subst.
  - injection H as ->. apply Z.eqb_refl.
Qed.

Lemma webhookType_eqb_neq (a b : webhookType) : webhookType_eqb a b = false <-> a <> b.
Proof.
  rewrite <- webhookType_eqb_eq. destruct (webhookType_eqb a b); split; congruence.
Qed.

(** ** Descriptor defaulting *)

(** The bytes of [s] in the class [a-zA-Z0-9], in order. *)
Fixpoint keep_alnum (s : string) : string :=
  match s with
  | EmptyString => EmptyString
  | String c s' => if strs.is_alnum c then String c (keep_alnum s') else keep_alnum s'
  end.

(** The name the spec derives from a path: every byte that is not ASCII
    alphanumeric removed, the result in lower case, ".example.com" appended. *)
Definition derived_name (p : string) : string :=
  strs.ToLower (keep_alnum p) ++ ".example.com".

Lemma replace_runs_empty (b : bool) (s : string) : replace_runs b s "" = keep_alnum s.
Proof.
  revert b. induction s as [ | c s IH ]; intro b; simpl.
  - reflexivity.
  - destruct (strs.is_alnum c).
    + now rewrite IH.
    + destruct b; simpl; apply IH.
Qed.

Lemma ReplaceAllString_empty (s : string) : ReplaceAllString s "" = keep_alnum s.
Proof. apply replace_runs_empty. Qed.

(** The descriptors on which setDefaults returns before any defaulting: the
    path is empty and there is no first resource to build it from. *)
Definition cannot_default (w : admissionWebhook) : Prop :=
  path w = "" /\
  (rules w = [] \/ exists r rs, rules w = r :: rs /\ K8s.Resources r = []).

Lemma setDefaults_skip (w : admissionWebhook) : cannot_default w -> setDefaults w = w.
Proof.
  intros [Hp Hr]. unfold setDefaults. rewrite Hp. simpl.
  destruct Hr as [-> | (r & rs & -> & ->)]; reflexivity.
Qed.

Lemma append_nonempty (a : ascii) (s1 s2 : string) : (String a s1 ++ s2) <> "".
Proof. simpl. discriminate. Qed.

Lemma append_suffix_nonempty (s : string) : s ++ ".example.com" <> "".
Proof. destruct s; simpl; discriminate. Qed.

(** C4: with an empty path and a first rule that has a first resource,
    setDefaults sets the path to "/mutate-" or "/validate-" followed by that
    resource, by kind; with an empty path and no rule, or no resource in the
    first rule, it changes nothing at all. *)
Theorem setDefaults_path (w : admissionWebhook) :
  path w = "" ->
  (forall r rs res ress,
      rules w = r :: rs -> K8s.Resources r = res :: ress ->
      (t w = webhookTypeMutating -> path (setDefaults w) = "/mutate-" ++ res) /\
      (t w = webhookTypeValidating -> path (setDefaults w) = "/validate-" ++ res)) /\
  ((rules w = [] \/ exists r rs, rules w = r :: rs /\ K8s.Resources r = []) ->
   path (setDefaults w) = "" /\ setDefaults w = w).
Proof.
  intro Hp. split.
  - intros r rs res ress Hr Hres. unfold setDefaults. rewrite Hp, Hr, Hres. simpl.
    split; intros ->; simpl;
      match goal with |- context [ if ?c then _ else _ ] => destruct c end;
      reflexivity.
  - intro H. rewrite setDefaults_skip by (split; assumption). now split.
Qed.

Definition pods_rule : K8s.RuleWithOperations := K8s.mkRule [] [] [] ["pods"].

Lemma setDefaults_path_witness :
  path (setDefaults (mkAdmissionWebhook "" webhookTypeValidating "" [pods_rule]
                                        None None false 0)) = "/validate-pods".
Proof.
  apply (setDefaults_path
           (mkAdmissionWebhook "" webhookTypeValidating "" [pods_rule] None None false 0)
           eq_refl) with (r := pods_rule) (rs := []) (ress := []); reflexivity.
Defined.

(** C5 as stated fails: a descriptor with empty name, empty path and no rule
    keeps its empty name, where the derived name would be ".example.com". *)
Lemma setDefaults_name_counterexample :
  let w := mkAdmissionWebhook "" webhookTypeMutating "" [] None None false 0 in
  name w = "" /\
  name (setDefaults w) = "" /\
  name (setDefaults w) <> derived_name (path w) /\
  name (setDefaults w) <> derived_name (path (setDefaults w)).
Proof. repeat split; discriminate. Qed.

(** C5, amended: for a descriptor with empty name, setDefaults sets the name
    to the name derived from the path as path defaulting leaves it, unless the
    path is empty and there is no first resource, in which case the name stays
    empty; path "/mutate-pods" gives "mutatepods.example.com". *)
Theorem setDefaults_name (w : admissionWebhook) :
  name w = "" ->
  (~ cannot_default w ->
   name (setDefaults w) = derived_name (path (setDefaults w))) /\
  (cannot_default w -> name (setDefaults w) = "") /\
  derived_name "/mutate-pods" = "mutatepods.example.com".
Proof.
  intro Hn. split; [ | split ].
  - intro Hc. unfold setDefaults, derived_name.
    destruct (len_string (path w) =? 0) eqn:Hp.
    + apply len_string_0 in Hp.
      destruct (rules w) as [ | r rs ] eqn:Hr.
      { exfalso. apply Hc. split; [ assumption | now left ]. }
      destruct (K8s.Resources r) as [ | res ress ] eqn:Hres.
      { exfalso. apply Hc. split; [ assumption | right; now exists r, rs ]. }
      destruct (webhookType_eqb (t w) webhookTypeMutating);
        [ | destruct (webhookType_eqb (t w) webhookTypeValidating) ];
        simpl; rewrite Hn; simpl; unfold ReplaceAllString;
        rewrite ?replace_runs_empty; reflexivity.
    + rewrite Hn. simpl. now rewrite ReplaceAllString_empty.
  - intro Hc. now rewrite setDefaults_skip.
  - reflexivity.
Qed.

Lemma setDefaults_name_witness :
  name (setDefaults (mkAdmissionWebhook "" webhookTypeMutating "/mutate-pods" []
                                        None None false 0))
  = "mutatepods.example.com".
Proof.
  destruct (setDefaults_name
              (mkAdmissionWebhook "" webhookTypeMutating "/mutate-pods" [] None None false 0)
              eq_refl) as [H _].
  rewrite H.
  - reflexivity.
  - intros [Hp _]. discriminate Hp.
Defined.

(** The kinds Validate accepts. *)
Definition supported (ty : webhookType) : Prop :=
  ty = webhookTypeMutating \/ ty = webhookTypeValidating.

Lemma supported_dec (ty : webhookType) :
  negb (webhookType_eqb ty webhookTypeMutating) &&
  negb (webhookType_eqb ty webhookTypeValidating) = false <-> supported ty.
Proof.
  unfold supported. destruct ty; simpl; split; intro H;
    try reflexivity; try discriminate; try tauto.
  destruct H; discriminate.
Qed.

(** C6: Validate runs the defaulting guard, then returns an error exactly
    when rules is empty, name is empty, the kind is unsupported or path is
    empty (read after defaulting); the checks run in that order and the
    first that fails gives the error. *)
Theorem Validate_first_failing_check (w : admissionWebhook) :
  let w' := fst (Validate w) in
  let err := snd (Validate w) in
  w' = once_Do setDefaults w /\
  (err <> None <->
   rules w' = [] \/ name w' = "" \/ ~ supported (t w') \/ path w' = "") /\
  (err = Some ErrRulesEmpty <-> rules w' = []) /\
  (err = Some ErrNameEmpty <-> rules w' <> [] /\ name w' = "") /\
  (err = Some (ErrUnsupportedType (t w')) <->
   rules w' <> [] /\ name w' <> "" /\ ~ supported (t w')) /\
  (err = Some ErrPathEmpty <->
   rules w' <> [] /\ name w' <> "" /\ supported (t w') /\ path w' = "").
Proof.
  unfold Validate.
  set (d := once_Do setDefaults w).
  destruct (len (rules d) =? 0) eqn:Hr.
  { apply len_0 in Hr. simpl. intuition (congruence || discriminate). }
  assert (Hr' : rules d <> []) by (intro E; apply len_0 in E; congruence).
  destruct (len_string (name d) =? 0) eqn:Hn.
  { apply len_string_0 in Hn. simpl. intuition (congruence || discriminate). }
  apply len_string_0_false in Hn.
  destruct (negb (webhookType_eqb (t d) webhookTypeMutating) &&
            negb (webhookType_eqb (t d) webhookTypeValidating)) eqn:Ht.
  { assert (Hs : ~ supported (t d)).
    { intro Hs. apply supported_dec in Hs. congruence. }
    simpl. intuition (congruence || discriminate). }
  apply supported_dec in Ht.
  destruct (len_string (path d) =? 0) eqn:Hp.
  { apply len_string_0 in Hp. simpl. intuition (congruence || discriminate). }
  apply len_string_0_false in Hp. simpl.
  intuition (congruence || discriminate).
Qed.

(** ** Defaulting runs once *)

Lemma setDefaults_idempotent (w : admissionWebhook) :
  setDefaults (setDefaults w) = setDefaults w.
Proof.
  destruct w as [n ty p r fp ns o k].
  unfold setDefaults; simpl.
  destruct p as [ | c p ]; simpl.
  - destruct r as [ | r rs ]; simpl; [ reflexivity | ].
    destruct (K8s.Resources r) as [ | res ress ] eqn:Hres; simpl.
    + now rewrite Hres.
    + destruct ty; simpl; try (destruct n; reflexivity).
      destruct n as [ | c n ]; simpl; [ | now rewrite Hres ].
      destruct (strs.ToLower (ReplaceAllString "" "") ++ ".example.com") eqn:E;
        [ discriminate E | ].
      simpl. now rewrite Hres.
  - destruct n as [ | c' n ]; simpl; [ | reflexivity ].
    destruct (strs.ToLower (ReplaceAllString (String c p) "") ++ ".example.com") eqn:E.
    + exfalso. exact (append_suffix_nonempty _ E).
    + reflexivity.
Qed.

(** The calls that go through the guard. *)
Inductive accessor := CallGetName | CallGetPath | CallGetType | CallValidate.

(** The descriptor as one call leaves it. *)
Definition call (a : accessor) (w : admissionWebhook) : admissionWebhook :=
  match a with
  | CallGetName => fst (GetName w)
  | CallGetPath => fst (GetPath w)
  | CallGetType => fst (GetType w)
  | CallValidate => fst (Validate w)
  end.

Definition calls (l : list accessor) (w : admissionWebhook) : admissionWebhook :=
  fold_left (fun w a => call a w) l w.

Lemma call_once_Do (a : accessor) (w : admissionWebhook) :
  call a w = once_Do setDefaults w.
Proof.
  destruct a; try reflexivity.
  unfold call, Validate.
  repeat match goal with |- context [ if ?c then _ else _ ] => destruct c end;
    reflexivity.
Qed.

Lemma once_Do_done (f : admissionWebhook -> admissionWebhook) (w : admissionWebhook) :
  once w = true -> once_Do f w = w.
Proof. unfold once_Do. now intros ->. Qed.

Lemma once_Do_sets_once (f : admissionWebhook -> admissionWebhook) (w : admissionWebhook) :
  once (once_Do f w) = true.
Proof. unfold once_Do. destruct (once w) eqn:E; [ assumption | reflexivity ]. Qed.

Lemma calls_done (l : list accessor) (w : admissionWebhook) :
  once w = true -> calls l w = w.
Proof.
  revert w. induction l as [ | a l IH ]; intros w Hw; simpl.
  - reflexivity.
  - rewrite call_once_Do, once_Do_done by assumption. now apply IH.
Qed.

Lemma calls_cons (a : accessor) (l : list accessor) (w : admissionWebhook) :
  calls (a :: l) w = once_Do setDefaults w.
Proof.
  simpl. rewrite call_once_Do. apply calls_done, once_Do_sets_once.
Qed.

(** C9: setDefaults run twice leaves the descriptor as setDefaults run once
    does; and however many accessor calls are made on a descriptor, the guard
    runs setDefaults at most once: the calls leave the descriptor as the first
    one does, and none of them runs it when it has run before. *)
Theorem defaulting_idempotent_and_once (w : admissionWebhook) (l : list accessor) :
  setDefaults (setDefaults w) = setDefaults w /\
  (once_runs (calls l w) <= once_runs w + 1)%nat /\
  once_runs (calls l w) =
    (if once w || match l with [] => true | _ => false end
     then once_runs w else S (once_runs w)) /\
  calls l w = match l with [] => w | _ => once_Do setDefaults w end.
Proof.
  split; [ apply setDefaults_idempotent | ].
  destruct l as [ | a l ].
  - simpl. rewrite orb_true_r. repeat split. lia.
  - rewrite calls_cons, orb_false_r. unfold once_Do.
    destruct (once w); simpl; repeat split; lia.
Qed.

(** ** Defaulting of the options *)

Definition example_service : service_t := mkServiceT "webhook" "system" [].

(** C2 as stated fails: options given both a host and a service keep both
    after setDefault. *)
Lemma setDefault_both_set_counterexample :
  let o := mkOptions None 0 "" "" "" None (Some example_service) (Some "example.org") in
  host (setDefault o) <> None /\ service (setDefault o) <> None.
Proof. split; discriminate. Qed.

(** C2, amended: setDefault leaves service as given and sets host to
    "localhost" when neither was given, leaving it as given otherwise; so
    afterwards at least one of the two is set, and both are set exactly when
    both were given. *)
Theorem setDefault_host_service (o : generatorOptions) :
  service (setDefault o) = service o /\
  host (setDefault o) =
    (if isNil (host o) && isNil (service o) then Some "localhost" else host o) /\
  (host (setDefault o) <> None \/ service (setDefault o) <> None) /\
  (host (setDefault o) <> None /\ service (setDefault o) <> None <->
   host o <> None /\ service o <> None).
Proof.
  unfold setDefault; simpl.
  destruct (host o) as [ h | ], (service o) as [ sv | ]; simpl;
    intuition (congruence || discriminate).
Qed.

(** ** The order on names *)

Module StringOrder.

Lemma ascii_compare_refl (a : ascii) : Ascii.compare a a = Eq.
Proof. unfold Ascii.compare. apply N.compare_refl. Qed.

Lemma ascii_compare_lt_trans (a b c : ascii) :
  Ascii.compare a b = Lt -> Ascii.compare b c = Lt -> Ascii.compare a c = Lt.
Proof.
  unfold Ascii.compare. rewrite !N.compare_lt_iff. apply N.lt_trans.
Qed.

Lemma compare_refl (s : string) : String.compare s s = Eq.
Proof.
  induction s as [ | a s IH ]; simpl; [ reflexivity | ].
  now rewrite ascii_compare_refl.
Qed.

Lemma compare_le_trans (a b c : string) :
  String.compare a b <> Gt -> String.compare b c <> Gt -> String.compare a c <> Gt.
Proof.
  revert b c. induction a as [ | x a IH ]; intros [ | y b ] [ | z c ]; simpl;
    try congruence.
  destruct (Ascii.compare x y) eqn:Hxy; try congruence;
    destruct (Ascii.compare y z) eqn:Hyz; try congruence; intros Hab Hbc.
  - apply Ascii.compare_eq_iff in Hxy, Hyz. subst.
    rewrite ascii_compare_refl. now apply (IH b c).
  - apply Ascii.compare_eq_iff in Hxy. subst. rewrite Hyz. discriminate.
  - apply Ascii.compare_eq_iff in Hyz. subst. rewrite Hxy. discriminate.
  - rewrite (ascii_compare_lt_trans x y z Hxy Hyz). discriminate.
Qed.

Lemma leb_iff (a b : string) : String.leb a b = true <-> String.compare a b <> Gt.
Proof. unfold String.leb. destruct (String.compare a b); split; congruence. Qed.

Lemma ltb_iff (a b : string) : String.ltb a b = true <-> String.compare a b = Lt.
Proof. unfold String.ltb. destruct (String.compare a b); split; congruence. Qed.

Lemma leb_trans (a b c : string) :
  String.leb a b = true -> String.leb b c = true -> String.leb a c = true.
Proof. rewrite !leb_iff. apply compare_le_trans. Qed.

Lemma ltb_leb (a b : string) : String.ltb a b = true -> String.leb a b = true.
Proof. rewrite ltb_iff, leb_iff. congruence. Qed.

Lemma not_ltb_leb (a b : string) : String.ltb a b = false -> String.leb b a = true.
Proof.
  intro H. apply leb_iff. rewrite String.compare_antisym.
  unfold String.ltb in H. destruct (String.compare a b); simpl; congruence.
Qed.

Lemma leb_neq_ltb (a b : string) :
  String.leb a b = true -> a <> b -> String.ltb a b = true.
Proof.
  rewrite leb_iff, ltb_iff. intros Hle Hne.
  destruct (String.compare a b) eqn:E; try congruence.
  apply String.compare_eq_iff in E. contradiction.
Qed.

Lemma ltb_asym (a b : string) :
  String.ltb a b = true -> String.ltb b a = true -> False.
Proof.
  rewrite !ltb_iff. rewrite (String.compare_antisym a b).
  destruct (String.compare b a); simpl; congruence.
Qed.

End StringOrder.

(** ** sort.Slice by name *)

Definition name_le (a b : K8s.Webhook) : Prop :=
  String.leb (K8s.wh_Name a) (K8s.wh_Name b) = true.

Definition name_lt (a b : K8s.Webhook) : Prop :=
  String.ltb (K8s.wh_Name a) (K8s.wh_Name b) = true.

Lemma bubble_left_perm (x : K8s.Webhook) (acc : list K8s.Webhook) :
  Permutation (bubble_left x acc) (x :: acc).
Proof.
  induction acc as [ | y acc IH ]; simpl.
  - apply Permutation_refl.
  - destruct (less x y).
    + eapply Permutation_trans; [ apply perm_skip, IH | apply perm_swap ].
    + apply Permutation_refl.
Qed.

Lemma fold_bubble_perm (l acc : list K8s.Webhook) :
  Permutation (fold_left (fun acc x => bubble_left x acc) l acc) (l ++ acc).
Proof.
  revert acc. induction l as [ | x l IH ]; intro acc; simpl.
  - apply Permutation_refl.
  - eapply Permutation_trans; [ apply IH | ].
    eapply Permutation_trans;
      [ apply Permutation_app_head, bubble_left_perm | ].
    symmetry. apply Permutation_middle.
Qed.

Lemma sort_Slice_perm (l : list K8s.Webhook) : Permutation (sort_Slice l) l.
Proof.
  unfold sort_Slice. eapply Permutation_trans.
  - symmetry. apply Permutation_rev.
  - rewrite <- (app_nil_r l) at 2. apply fold_bubble_perm.
Qed.

(** The sorted prefix, nearest predecessor first: each element is at least
    those after it. *)
Definition descending (acc : list K8s.Webhook) : Prop :=
  StronglySorted (fun a b => name_le b a) acc.

Lemma bubble_left_descending (x : K8s.Webhook) (acc : list K8s.Webhook) :
  descending acc -> descending (bubble_left x acc).
Proof.
  unfold descending. induction acc as [ | y acc IH ]; intro H; simpl.
  - repeat constructor.
  - inversion H as [ | ? ? Hs Hall ]; subst.
    destruct (less x y) eqn:Hxy.
    + constructor; [ now apply IH | ].
      eapply Permutation_Forall; [ symmetry; apply bubble_left_perm | ].
      constructor; [ | assumption ].
      now apply StringOrder.ltb_leb.
    + assert (Hyx : name_le y x) by now apply StringOrder.not_ltb_leb.
      constructor; [ assumption | ].
      constructor; [ assumption | ].
      eapply Forall_impl; [ | exact Hall ].
      intros z Hz. unfold name_le in *. eapply StringOrder.leb_trans; eassumption.
Qed.

Lemma fold_bubble_descending (l acc : list K8s.Webhook) :
  descending acc -> descending (fold_left (fun acc x => bubble_left x acc) l acc).
Proof.
  revert acc. induction l as [ | x l IH ]; intros acc H; simpl.
  - assumption.
  - now apply IH, bubble_left_descending.
Qed.

Lemma StronglySorted_snoc {A} (R : A -> A -> Prop) (l : list A) (x : A) :
  StronglySorted R l -> Forall (fun y => R y x) l -> StronglySorted R (l ++ [x]).
Proof.
  induction l as [ | a l IH ]; intros Hs Hx; simpl.
  - repeat constructor.
  - inversion Hs; subst. inversion Hx; subst.
    constructor; [ now apply IH | ].
    apply Forall_app. split; [ assumption | now repeat constructor ].
Qed.

Lemma StronglySorted_rev {A} (R : A -> A -> Prop) (l : list A) :
  StronglySorted (fun a b => R b a) l -> StronglySorted R (rev l).
Proof.
  induction l as [ | a l IH ]; intro H; simpl.
  - constructor.
  - inversion H; subst. apply StronglySorted_snoc; [ now apply IH | ].
    now apply Forall_rev.
Qed.

Lemma sort_Slice_sorted (l : list K8s.Webhook) : StronglySorted name_le (sort_Slice l).
Proof.
  unfold sort_Slice. apply StronglySorted_rev.
  apply (fold_bubble_descending l []). constructor.
Qed.

Lemma StronglySorted_strict (l : list K8s.Webhook) :
  StronglySorted name_le l -> NoDup (map K8s.wh_Name l) -> StronglySorted name_lt l.
Proof.
  induction l as [ | a l IH ]; intros Hs Hn; simpl in *.
  - constructor.
  - inversion Hs as [ | ? ? Hs' Hall ]; subst. inversion Hn as [ | ? ? Hnin Hn' ]; subst.
    constructor; [ now apply IH | ].
    rewrite Forall_forall in *. intros b Hb.
    apply StringOrder.leb_neq_ltb; [ now apply Hall | ].
    intro E. apply Hnin. rewrite E. now apply in_map.
Qed.

Lemma strictly_sorted_unique (l1 l2 : list K8s.Webhook) :
  StronglySorted name_lt l1 -> StronglySorted name_lt l2 ->
  Permutation l1 l2 -> l1 = l2.
Proof.
  revert l2. induction l1 as [ | a l1 IH ]; intros l2 H1 H2 Hp.
  - now apply Permutation_nil in Hp.
  - destruct l2 as [ | b l2 ].
    + symmetry in Hp. now apply Permutation_nil in Hp.
    + inversion H1 as [ | ? ? Hs1 Hall1 ]; subst.
      inversion H2 as [ | ? ? Hs2 Hall2 ]; subst.
      assert (Hab : a = b).
      { assert (Ha : In a (b :: l2))
          by (eapply Permutation_in; [ exact Hp | now left ]).
        assert (Hb : In b (a :: l1))
          by (eapply Permutation_in; [ symmetry; exact Hp | now left ]).
        destruct Ha as [ Ha | Ha ]; [ now symmetry | ].
        destruct Hb as [ Hb | Hb ]; [ assumption | ].
        rewrite Forall_forall in Hall1, Hall2.
        exfalso. exact (StringOrder.ltb_asym _ _ (Hall1 b Hb) (Hall2 a Ha)). }
      subst b. f_equal. apply IH; try assumption.
      now apply Permutation_cons_inv in Hp.
Qed.

(** With pairwise distinct names the sorted slice does not depend on the
    order of the input. *)
Lemma sort_Slice_order_independent (l1 l2 : list K8s.Webhook) :
  Permutation l1 l2 -> NoDup (map K8s.wh_Name l1) ->
  sort_Slice l1 = sort_Slice l2.
Proof.
  intros Hp Hn.
  assert (Hn1 : NoDup (map K8s.wh_Name (sort_Slice l1))).
  { eapply Permutation_NoDup; [ | exact Hn ].
    apply Permutation_map. symmetry. apply sort_Slice_perm. }
  assert (Hn2 : NoDup (map K8s.wh_Name (sort_Slice l2))).
  { eapply Permutation_NoDup; [ | exact Hn1 ].
    apply Permutation_map.
    eapply Permutation_trans; [ apply sort_Slice_perm | ].
    eapply Permutation_trans; [ exact Hp | ].
    symmetry. apply sort_Slice_perm. }
  apply strictly_sorted_unique.
  - apply StronglySorted_strict; [ apply sort_Slice_sorted | assumption ].
  - apply StronglySorted_strict; [ apply sort_Slice_sorted | assumption ].
  - eapply Permutation_trans; [ apply sort_Slice_perm | ].
    eapply Permutation_trans; [ exact Hp | ].
    symmetry. apply sort_Slice_perm.
Qed.

(** ** What the loops of Generate compute *)

Definition range_id : mapOrder := fun l => l.

Lemma range_id_ok : range_ok range_id.
Proof. intro l. apply Permutation_refl. Qed.

Lemma range_ok_nil (f : mapOrder) : range_ok f -> f [] = [].
Proof. intro H. apply Permutation_nil. symmetry. apply H. Qed.

Lemma entries_setDefault (o : generatorOptions) : entries (setDefault o) = entries o.
Proof. unfold entries, setDefault; simpl. now destruct (registry o). Qed.

Lemma entries_set_registry (o : generatorOptions) (r : registry_t) :
  entries (set_registry o (Some r)) = r.
Proof. reflexivity. Qed.

Definition valid (w : admissionWebhook) : Prop := snd (Validate w) = None.

Definition defaulted_entry (pw : string * admissionWebhook) : string * admissionWebhook :=
  (fst pw, once_Do setDefaults (snd pw)).

Lemma Validate_fst (w : admissionWebhook) : fst (Validate w) = once_Do setDefaults w.
Proof. exact (call_once_Do CallValidate w). Qed.

Lemma setDefaults_fields (w : admissionWebhook) :
  t (setDefaults w) = t w /\ rules (setDefaults w) = rules w /\
  failurePolicy (setDefaults w) = failurePolicy w /\
  namespaceSelector (setDefaults w) = namespaceSelector w.
Proof.
  destruct w as [n ty p r fp ns o k]. unfold setDefaults; simpl.
  repeat (match goal with
          | |- context [ if ?c then _ else _ ] => destruct c
          | |- context [ match ?l with [] => _ | _ :: _ => _ end ] => destruct l
          end; simpl);
    auto.
Qed.

Lemma once_Do_fields (w : admissionWebhook) :
  t (once_Do setDefaults w) = t w /\ rules (once_Do setDefaults w) = rules w /\
  failurePolicy (once_Do setDefaults w) = failurePolicy w /\
  namespaceSelector (once_Do setDefaults w) = namespaceSelector w.
Proof.
  unfold once_Do. destruct (once w); simpl; [ auto | apply setDefaults_fields ].
Qed.

Lemma valid_supported (w : admissionWebhook) : valid w -> supported (t w).
Proof.
  unfold valid, Validate. destruct (once_Do_fields w) as (Ht & _).
  set (d := once_Do setDefaults w) in *.
  destruct (len (rules d) =? 0); [ discriminate | ].
  destruct (len_string (name d) =? 0); [ discriminate | ].
  destruct (negb (webhookType_eqb (t d) webhookTypeMutating) &&
            negb (webhookType_eqb (t d) webhookTypeValidating)) eqn:E;
    [ discriminate | ].
  intros _. rewrite <- Ht. now apply supported_dec.
Qed.

Lemma validate_range_Ok (l r : registry_t) :
  validate_range l = Ok r ->
  r = map defaulted_entry l /\ Forall (fun pw => valid (snd pw)) l.
Proof.
  revert r. induction l as [ | [p w] l IH ]; intros r H; simpl in H.
  - injection H as <-. split; constructor.
  - destruct (Validate w) as [w' [err | ]] eqn:Hv; [ discriminate | ].
    destruct (validate_range l) as [ r' | ]; [ | discriminate ].
    injection H as <-. destruct (IH r' eq_refl) as [-> Hall].
    split.
    + pose proof (Validate_fst w) as Hf. rewrite Hv in Hf. simpl in Hf.
      subst w'. reflexivity.
    + constructor; [ | assumption ]. unfold valid. simpl. now rewrite Hv.
Qed.

Lemma validate_range_complete (l : registry_t) :
  Forall (fun pw => valid (snd pw)) l -> validate_range l = Ok (map defaulted_entry l).
Proof.
  induction l as [ | [p w] l IH ]; intro H; simpl.
  - reflexivity.
  - inversion H as [ | ? ? Hw Hl ]; subst. unfold valid in Hw. simpl in Hw.
    pose proof (Validate_fst w) as Hf.
    destruct (Validate w) as [w' err]. simpl in Hw, Hf. subst.
    now rewrite (IH Hl).
Qed.

Definition done (pw : string * admissionWebhook) : Prop := once (snd pw) = true.

Lemma defaulted_entries_done (l : registry_t) : Forall done (map defaulted_entry l).
Proof.
  apply Forall_forall. intros pw H. apply in_map_iff in H as (x & <- & _).
  apply once_Do_sets_once.
Qed.

Lemma GetType_done (w : admissionWebhook) : once w = true -> GetType w = (w, t w).
Proof. intro H. unfold GetType. now rewrite once_Do_done. Qed.

(** The descriptor as the method admissionWebhook leaves it. *)
Definition with_selector (o : generatorOptions) (w : admissionWebhook) : admissionWebhook :=
  if isNil (namespaceSelector w) &&
     match service o with
     | Some s => 0 <? len_string (service_namespace s)
     | None => false
     end
  then set_namespaceSelector w (Some default_namespaceSelector)
  else w.

Definition entry_with (w : admissionWebhook) (cc : K8s.WebhookClientConfig) : K8s.Webhook :=
  K8s.mkWebhook (name w) cc (rules w) (failurePolicy w) (namespaceSelector w).

Lemma getClientConfigWithPath_cases (o : generatorOptions) (p : string) :
  (exists cc, getClientConfigWithPath o p = (Some cc, None)) \/
  (exists x err, getClientConfigWithPath o p = (x, Some err)).
Proof.
  unfold getClientConfigWithPath. destruct (getClientConfig o) as [ cc | e ].
  - destruct (setPath cc p) as [cc' [ err | ]]; [ right | left ]; eauto.
  - right; eauto.
Qed.

Lemma admissionWebhook_entry_Ok (o : generatorOptions) (p : string) (w : admissionWebhook)
      (cc : K8s.WebhookClientConfig) :
  getClientConfigWithPath o p = (Some cc, None) ->
  admissionWebhook_entry o p w = (with_selector o w, Ok (entry_with (with_selector o w) cc)).
Proof. intro H. unfold admissionWebhook_entry. rewrite H. reflexivity. Qed.

Lemma admissionWebhook_entry_Err (o : generatorOptions) (p : string) (w : admissionWebhook)
      (x : option K8s.WebhookClientConfig) (err : error) :
  getClientConfigWithPath o p = (x, Some err) ->
  admissionWebhook_entry o p w = (with_selector o w, Err err).
Proof. intro H. unfold admissionWebhook_entry. rewrite H. now destruct x. Qed.

Definition touch (o : generatorOptions) (ty : webhookType) (pw : string * admissionWebhook)
  : string * admissionWebhook :=
  if webhookType_eqb (t (snd pw)) ty then (fst pw, with_selector o (snd pw)) else pw.

Definition entries_of (o : generatorOptions) (ty : webhookType) (pw : string * admissionWebhook)
  : list K8s.Webhook :=
  if webhookType_eqb (t (snd pw)) ty then
    match getClientConfigWithPath o (fst pw) with
    | (Some cc, None) => [entry_with (with_selector o (snd pw)) cc]
    | _ => []
    end
  else [].

Definition reachable (o : generatorOptions) (ty : webhookType) (pw : string * admissionWebhook)
  : Prop :=
  webhookType_eqb (t (snd pw)) ty = true ->
  exists cc, getClientConfigWithPath o (fst pw) = (Some cc, None).

Lemma webhooks_range_Ok (o : generatorOptions) (ty : webhookType)
      (l r : registry_t) (whs : list K8s.Webhook) :
  Forall done l ->
  webhooks_range o ty l = Ok (r, whs) ->
  r = map (touch o ty) l /\ whs = flat_map (entries_of o ty) l /\
  Forall (reachable o ty) l.
Proof.
  revert r whs. induction l as [ | [p w] l IH ]; intros r whs Hd H.
  - simpl in H. injection H as <- <-. repeat split; constructor.
  - inversion Hd as [ | ? ? Hw Hl ]; subst. unfold done in Hw. simpl in Hw.
    cbn [webhooks_range] in H. rewrite (GetType_done w Hw) in H.
    unfold touch, entries_of, reachable. cbn [map flat_map fst snd].
    destruct (webhookType_eqb (t w) ty) eqn:Hty; cbn [negb] in H.
    + destruct (getClientConfigWithPath_cases o p) as [ (cc & Hcc) | (x & err & Hcc) ].
      * rewrite (admissionWebhook_entry_Ok o p w cc Hcc) in H.
        destruct (webhooks_range o ty l) as [ [r' whs'] | ]; [ | discriminate ].
        injection H as <- <-. destruct (IH r' whs' Hl eq_refl) as (-> & -> & Hall).
        rewrite Hcc. repeat split.
        constructor; [ | exact Hall ]. simpl. intros _. now exists cc.
      * rewrite (admissionWebhook_entry_Err o p w x err Hcc) in H. discriminate.
    + destruct (webhooks_range o ty l) as [ [r' whs'] | ]; [ | discriminate ].
      injection H as <- <-. destruct (IH r' whs' Hl eq_refl) as (-> & -> & Hall).
      repeat split. constructor; [ | exact Hall ]. simpl. congruence.
Qed.

Lemma webhooks_range_complete (o : generatorOptions) (ty : webhookType) (l : registry_t) :
  Forall done l -> Forall (reachable o ty) l ->
  webhooks_range o ty l = Ok (map (touch o ty) l, flat_map (entries_of o ty) l).
Proof.
  induction l as [ | [p w] l IH ]; intros Hd Hr.
  - reflexivity.
  - inversion Hd as [ | ? ? Hw Hl ]; subst. inversion Hr as [ | ? ? Hcc Hrl ]; subst.
    unfold done in Hw. unfold reachable in Hcc. simpl in Hw, Hcc.
    cbn [webhooks_range map flat_map]. rewrite (GetType_done w Hw), (IH Hl Hrl).
    assert (Ht : touch o ty (p, w) =
                 if webhookType_eqb (t w) ty then (p, with_selector o w) else (p, w))
      by reflexivity.
    assert (He : entries_of o ty (p, w) =
                 if webhookType_eqb (t w) ty then
                   match getClientConfigWithPath o p with
                   | (Some cc, None) => [entry_with (with_selector o w) cc]
                   | _ => []
                   end
                 else []) by reflexivity.
    rewrite Ht, He.
    destruct (webhookType_eqb (t w) ty) eqn:Hty; cbn [negb].
    + destruct (Hcc eq_refl) as (cc & E).
      rewrite (admissionWebhook_entry_Ok o p w cc E), E. reflexivity.
    + reflexivity.
Qed.

Definition mutating_objects (o : generatorOptions) (whs : list K8s.Webhook)
  : list runtime_Object :=
  if 0 <? len whs then
    [Some (K8s.MutatingWebhookConfiguration
             (K8s.mkTypeMeta (K8s.GroupVersion_String K8s.GroupName "v1beta1")
                             "MutatingWebhookConfiguration")
             (K8s.mkObjectMeta (mutatingWebhookConfigName o) ""
                (webhook_cert_annotation
                   "admissionwebhook.alpha.kubebuilder.io/ca-secret-name"))
             whs)]
  else [].

Definition validating_objects (o : generatorOptions) (whs : list K8s.Webhook)
  : list runtime_Object :=
  if 0 <? len whs then
    [Some (K8s.ValidatingWebhookConfiguration
             (K8s.mkTypeMeta (K8s.GroupVersion_String K8s.GroupName "v1beta1")
                             "ValidatingWebhookConfiguration")
             (K8s.mkObjectMeta (validatingWebhookConfigName o) ""
                (webhook_cert_annotation
                   "admission.alpha.kubebuilder.io/ca-secret-name"))
             whs)]
  else [].


Definition nonnil (x : runtime_Object) : list runtime_Object :=
  if isNil x then [] else [x].

Lemma mutatingWHConfigs_Ok (f : mapOrder) (o o' : generatorOptions) (obj : runtime_Object) :
  Forall done (f (entries o)) ->
  mutatingWHConfigs f o = Ok (o', obj) ->
  o' = set_registry o (Some (map (touch o webhookTypeMutating) (f (entries o)))) /\
  Forall (reachable o webhookTypeMutating) (f (entries o)) /\
  nonnil obj =
    mutating_objects o
      (sort_Slice (flat_map (entries_of o webhookTypeMutating) (f (entries o)))).
Proof.
  intros Hd. unfold mutatingWHConfigs.
  destruct (webhooks_range o webhookTypeMutating (f (entries o)))
    as [ [r whs] | ] eqn:H; [ | discriminate ].
  apply webhooks_range_Ok in H as (-> & -> & Hr); [ | assumption ].
  unfold mutating_objects.
  destruct (0 <? len (sort_Slice _)); intro E; injection E as <- <-; now repeat split.
Qed.

Lemma mutatingWHConfigs_complete (f : mapOrder) (o : generatorOptions) :
  Forall done (f (entries o)) ->
  Forall (reachable o webhookTypeMutating) (f (entries o)) ->
  exists obj,
    mutatingWHConfigs f o =
      Ok (set_registry o (Some (map (touch o webhookTypeMutating) (f (entries o)))), obj) /\
    nonnil obj =
      mutating_objects o
        (sort_Slice (flat_map (entries_of o webhookTypeMutating) (f (entries o)))).
Proof.
  intros Hd Hr. unfold mutatingWHConfigs, mutating_objects.
  rewrite (webhooks_range_complete o _ _ Hd Hr).
  destruct (0 <? len (sort_Slice _)); eexists; split; reflexivity.
Qed.

Lemma validatingWHConfigs_Ok (f : mapOrder) (o o' : generatorOptions) (obj : runtime_Object) :
  Forall done (f (entries o)) ->
  validatingWHConfigs f o = Ok (o', obj) ->
  o' = set_registry o (Some (map (touch o webhookTypeValidating) (f (entries o)))) /\
  Forall (reachable o webhookTypeValidating) (f (entries o)) /\
  nonnil obj =
    validating_objects o
      (sort_Slice (flat_map (entries_of o webhookTypeValidating) (f (entries o)))).
Proof.
  intros Hd. unfold validatingWHConfigs.
  destruct (webhooks_range o webhookTypeValidating (f (entries o)))
    as [ [r whs] | ] eqn:H; [ | discriminate ].
  apply webhooks_range_Ok in H as (-> & -> & Hr); [ | assumption ].
  unfold validating_objects.
  destruct (0 <? len (sort_Slice _)); intro E; injection E as <- <-; now repeat split.
Qed.

Lemma validatingWHConfigs_complete (f : mapOrder) (o : generatorOptions) :
  Forall done (f (entries o)) ->
  Forall (reachable o webhookTypeValidating) (f (entries o)) ->
  exists obj,
    validatingWHConfigs f o =
      Ok (set_registry o (Some (map (touch o webhookTypeValidating) (f (entries o)))), obj) /\
    nonnil obj =
      validating_objects o
        (sort_Slice (flat_map (entries_of o webhookTypeValidating) (f (entries o)))).
Proof.
  intros Hd Hr. unfold validatingWHConfigs, validating_objects.
  rewrite (webhooks_range_complete o _ _ Hd Hr).
  destruct (0 <? len (sort_Slice _)); eexists; split; reflexivity.
Qed.

Lemma whConfigs_objs (mutatingWH validatingWH : runtime_Object) :
  (let objs : list runtime_Object := [] in
   let objs := if isNil mutatingWH then objs else (objs ++ [mutatingWH])%list in
   if isNil validatingWH then objs else (objs ++ [validatingWH])%list)
  = (nonnil mutatingWH ++ nonnil validatingWH)%list.
Proof. destruct mutatingWH, validatingWH; reflexivity. Qed.

Section Runs.

Variables f1 f2 f3 : mapOrder.
Variable o : generatorOptions.

(** The sequences the three loops visit. *)
Definition visited1 : registry_t := f1 (entries o).
Definition visited2 : registry_t := f2 (map defaulted_entry visited1).
Definition visited3 : registry_t :=
  f3 (map (touch (setDefault o) webhookTypeMutating) visited2).

Definition run_succeeds : Prop :=
  Forall (fun pw => valid (snd pw)) visited1 /\
  Forall (reachable (setDefault o) webhookTypeMutating) visited2 /\
  Forall (reachable (setDefault o) webhookTypeValidating) visited3.

Definition run_objects : list runtime_Object :=
  (mutating_objects (setDefault o)
     (sort_Slice (flat_map (entries_of (setDefault o) webhookTypeMutating) visited2)) ++
   validating_objects (setDefault o)
     (sort_Slice (flat_map (entries_of (setDefault o) webhookTypeValidating) visited3)) ++
   [getService (setDefault o)])%list.

Hypothesis f2_ok : range_ok f2.
Hypothesis f3_ok : range_ok f3.

Lemma visited2_done : Forall done visited2.
Proof.
  unfold visited2. eapply Permutation_Forall; [ symmetry; apply f2_ok | ].
  apply defaulted_entries_done.
Qed.

Lemma touch_done (od : generatorOptions) (ty : webhookType) (l : registry_t) :
  Forall done l -> Forall done (map (touch od ty) l).
Proof.
  intro H. apply Forall_forall. intros pw Hin.
  apply in_map_iff in Hin as ([p w] & <- & Hin).
  rewrite Forall_forall in H. specialize (H _ Hin). unfold done in *. simpl in H.
  unfold touch, with_selector. simpl.
  repeat match goal with |- context [ if ?c then _ else _ ] => destruct c end;
    assumption.
Qed.

Lemma visited3_done : Forall done visited3.
Proof.
  unfold visited3. eapply Permutation_Forall; [ symmetry; apply f3_ok | ].
  apply touch_done, visited2_done.
Qed.

Lemma Generate_Ok (o' : generatorOptions) (objs : list runtime_Object) :
  Generate f1 f2 f3 o = Ok (o', objs) -> run_succeeds /\ objs = run_objects.
Proof.
  unfold Generate, whConfigs. rewrite entries_setDefault. fold visited1.
  destruct (validate_range visited1) as [ r1 | ] eqn:H1; [ | discriminate ].
  apply validate_range_Ok in H1 as [-> Hv].
  destruct (mutatingWHConfigs f2 _) as [ [o2 obj2] | ] eqn:H2; [ | discriminate ].
  apply mutatingWHConfigs_Ok in H2 as (-> & Hr2 & E2);
    [ | rewrite entries_set_registry; apply visited2_done ].
  destruct (validatingWHConfigs f3 _) as [ [o3 obj3] | ] eqn:H3; [ | discriminate ].
  apply validatingWHConfigs_Ok in H3 as (-> & Hr3 & E3);
    [ | rewrite entries_set_registry; apply visited3_done ].
  rewrite whConfigs_objs. intro E. injection E as _ <-.
  split; [ repeat split; assumption | ].
  rewrite E2, E3, <- app_assoc. reflexivity.
Qed.

Lemma Generate_complete :
  run_succeeds -> exists o', Generate f1 f2 f3 o = Ok (o', run_objects).
Proof.
  intros (Hv & Hr2 & Hr3). unfold Generate, whConfigs.
  rewrite entries_setDefault. fold visited1.
  rewrite (validate_range_complete _ Hv).
  match goal with |- context [ mutatingWHConfigs f2 ?x ] => set (o1 := x) end.
  assert (Hd2 : Forall done (f2 (entries o1))) by apply visited2_done.
  destruct (mutatingWHConfigs_complete f2 o1 Hd2 Hr2) as (obj2 & H2 & E2).
  rewrite H2.
  match goal with |- context [ validatingWHConfigs f3 ?x ] => set (o2 := x) end.
  assert (Hd3 : Forall done (f3 (entries o2))) by apply visited3_done.
  destruct (validatingWHConfigs_complete f3 o2 Hd3 Hr3) as (obj3 & H3 & E3).
  rewrite H3, whConfigs_objs. eexists. f_equal. f_equal.
  rewrite E2, E3, <- app_assoc. reflexivity.
Qed.

End Runs.

(** ** The entries of a run, whatever the orders *)

Definition webhooks_of (obj : K8s.Object) : list K8s.Webhook :=
  match obj with
  | K8s.MutatingWebhookConfiguration _ _ whs => whs
  | K8s.ValidatingWebhookConfiguration _ _ whs => whs
  | K8s.Service _ _ _ => []
  end.

(** The webhook entries of all the objects of a list. *)
Definition emitted (objs : list runtime_Object) : list K8s.Webhook :=
  flat_map (fun x => match x with Some obj => webhooks_of obj | None => [] end) objs.

Lemma emitted_app (a b : list runtime_Object) :
  emitted (a ++ b) = (emitted a ++ emitted b)%list.
Proof. apply flat_map_app. Qed.

Lemma emitted_mutating_objects (o : generatorOptions) (whs : list K8s.Webhook) :
  emitted (mutating_objects o whs) = whs.
Proof.
  unfold mutating_objects. destruct whs as [ | e whs ]; [ reflexivity | ].
  replace (0 <? len (e :: whs)) with true
    by (symmetry; now apply len_pos).
  simpl. now rewrite app_nil_r.
Qed.

Lemma emitted_validating_objects (o : generatorOptions) (whs : list K8s.Webhook) :
  emitted (validating_objects o whs) = whs.
Proof.
  unfold validating_objects. destruct whs as [ | e whs ]; [ reflexivity | ].
  replace (0 <? len (e :: whs)) with true
    by (symmetry; now apply len_pos).
  simpl. now rewrite app_nil_r.
Qed.

Lemma emitted_getService (o : generatorOptions) : emitted [getService o] = [].
Proof. unfold getService. now destruct (service o). Qed.

Lemma with_selector_fields (o : generatorOptions) (w : admissionWebhook) :
  name (with_selector o w) = name w /\ t (with_selector o w) = t w /\
  rules (with_selector o w) = rules w /\
  failurePolicy (with_selector o w) = failurePolicy w.
Proof.
  unfold with_selector.
  destruct (isNil (namespaceSelector w) && _); simpl; auto.
Qed.

Lemma Mutating_neq_Validating :
  webhookType_eqb webhookTypeMutating webhookTypeValidating = false.
Proof. reflexivity. Qed.

(** The entries the validating loop appends do not depend on what the
    mutating loop did to the descriptors. *)
Lemma entries_of_Validating_touch (o : generatorOptions) (pw : string * admissionWebhook) :
  entries_of o webhookTypeValidating (touch o webhookTypeMutating pw)
  = entries_of o webhookTypeValidating pw.
Proof.
  destruct pw as [p w]. unfold touch. cbn [fst snd].
  destruct (webhookType_eqb (t w) webhookTypeMutating) eqn:E; [ | reflexivity ].
  apply webhookType_eqb_eq in E. unfold entries_of. cbn [fst snd].
  destruct (with_selector_fields o w) as (_ & -> & _). now rewrite E.
Qed.

Lemma reachable_Validating_touch (o : generatorOptions) (pw : string * admissionWebhook) :
  reachable o webhookTypeValidating (touch o webhookTypeMutating pw) <->
  reachable o webhookTypeValidating pw.
Proof.
  destruct pw as [p w]. unfold touch. cbn [fst snd].
  destruct (webhookType_eqb (t w) webhookTypeMutating) eqn:E; [ | reflexivity ].
  apply webhookType_eqb_eq in E. unfold reachable. cbn [fst snd].
  destruct (with_selector_fields o w) as (_ & -> & _). reflexivity.
Qed.

Lemma flat_map_Validating_touch (o : generatorOptions) (l : registry_t) :
  flat_map (entries_of o webhookTypeValidating) (map (touch o webhookTypeMutating) l)
  = flat_map (entries_of o webhookTypeValidating) l.
Proof.
  induction l as [ | pw l IH ]; simpl; [ reflexivity | ].
  now rewrite entries_of_Validating_touch, IH.
Qed.

Lemma Forall_perm_iff {A} (P : A -> Prop) (l l' : list A) :
  Permutation l l' -> (Forall P l <-> Forall P l').
Proof.
  intro H. split; apply Permutation_Forall; [ assumption | now symmetry ].
Qed.

Section Orders.

Variables f1 f2 f3 : mapOrder.
Variable o : generatorOptions.
Hypothesis f1_ok : range_ok f1.
Hypothesis f2_ok : range_ok f2.
Hypothesis f3_ok : range_ok f3.

(** The descriptors after validation, in the order of the registry. *)
Definition defaulted_entries : registry_t := map defaulted_entry (entries o).

Lemma visited1_perm : Permutation (visited1 f1 o) (entries o).
Proof. apply f1_ok. Qed.

Lemma visited2_perm : Permutation (visited2 f1 f2 o) defaulted_entries.
Proof.
  unfold visited2. eapply Permutation_trans; [ apply f2_ok | ].
  apply Permutation_map, visited1_perm.
Qed.

Lemma visited3_perm :
  Permutation (visited3 f1 f2 f3 o)
              (map (touch (setDefault o) webhookTypeMutating) defaulted_entries).
Proof.
  unfold visited3. eapply Permutation_trans; [ apply f3_ok | ].
  apply Permutation_map, visited2_perm.
Qed.

Lemma mutating_entries_perm :
  Permutation
    (flat_map (entries_of (setDefault o) webhookTypeMutating) (visited2 f1 f2 o))
    (flat_map (entries_of (setDefault o) webhookTypeMutating) defaulted_entries).
Proof. apply Permutation_flat_map, visited2_perm. Qed.

Lemma validating_entries_perm :
  Permutation
    (flat_map (entries_of (setDefault o) webhookTypeValidating) (visited3 f1 f2 f3 o))
    (flat_map (entries_of (setDefault o) webhookTypeValidating) defaulted_entries).
Proof.
  rewrite <- (flat_map_Validating_touch (setDefault o) defaulted_entries).
  apply Permutation_flat_map, visited3_perm.
Qed.

(** Whether a run succeeds does not depend on the orders. *)
Lemma run_succeeds_iff :
  run_succeeds f1 f2 f3 o <->
  Forall (fun pw => valid (snd pw)) (entries o) /\
  Forall (reachable (setDefault o) webhookTypeMutating) defaulted_entries /\
  Forall (reachable (setDefault o) webhookTypeValidating) defaulted_entries.
Proof.
  assert (H3 : Forall (reachable (setDefault o) webhookTypeValidating)
                 (map (touch (setDefault o) webhookTypeMutating) defaulted_entries) <->
               Forall (reachable (setDefault o) webhookTypeValidating) defaulted_entries).
  { rewrite Forall_map. split; apply Forall_impl; intro pw;
      apply reachable_Validating_touch. }
  unfold run_succeeds.
  rewrite (Forall_perm_iff _ _ _ visited1_perm).
  rewrite (Forall_perm_iff _ _ _ visited2_perm).
  rewrite (Forall_perm_iff _ _ _ visited3_perm).
  now rewrite H3.
Qed.

End Orders.

(** ** Names of the entries *)

(** The names, after defaulting, of the registered descriptors of a kind. *)
Definition names_of_kind (ty : webhookType) (l : registry_t) : list string :=
  map (fun pw => name (once_Do setDefaults (snd pw)))
      (filter (fun pw => webhookType_eqb (t (snd pw)) ty) l).

Lemma entries_of_defaulted (o : generatorOptions) (ty : webhookType)
      (p : string) (w : admissionWebhook) :
  map K8s.wh_Name (entries_of o ty (defaulted_entry (p, w))) = [] \/
  (webhookType_eqb (t w) ty = true /\
   map K8s.wh_Name (entries_of o ty (defaulted_entry (p, w)))
   = [name (once_Do setDefaults w)]).
Proof.
  unfold entries_of, defaulted_entry. cbn [fst snd].
  destruct (once_Do_fields w) as (-> & _).
  destruct (webhookType_eqb (t w) ty); [ | now left ].
  destruct (getClientConfigWithPath o p) as [[cc | ] [err | ]]; try now left.
  right. split; [ reflexivity | ]. simpl.
  now destruct (with_selector_fields o (once_Do setDefaults w)) as (-> & _).
Qed.

Lemma entry_names_incl (o : generatorOptions) (ty : webhookType) (l : registry_t) (n : string) :
  In n (map K8s.wh_Name (flat_map (entries_of o ty) (map defaulted_entry l))) ->
  In n (names_of_kind ty l).
Proof.
  unfold names_of_kind. induction l as [ | [p w] l IH ]; simpl; [ tauto | ].
  rewrite map_app, in_app_iff. intros [H | H].
  - destruct (entries_of_defaulted o ty p w) as [E | [Ety E]]; rewrite E in H.
    + destruct H.
    + rewrite Ety. destruct H as [<- | []]. now left.
  - destruct (webhookType_eqb (t w) ty); [ right | ]; now apply IH.
Qed.

Lemma entry_names_NoDup (o : generatorOptions) (ty : webhookType) (l : registry_t) :
  NoDup (names_of_kind ty l) ->
  NoDup (map K8s.wh_Name (flat_map (entries_of o ty) (map defaulted_entry l))).
Proof.
  induction l as [ | [p w] l IH ]; intro H; [ constructor | ].
  cbn [map flat_map]. rewrite map_app.
  assert (Hl : NoDup (names_of_kind ty l)).
  { unfold names_of_kind in *. simpl in H.
    destruct (webhookType_eqb (t w) ty); [ now inversion H | assumption ]. }
  destruct (entries_of_defaulted o ty p w) as [E | [Ety E]]; rewrite E.
  - now apply IH.
  - simpl. constructor; [ | now apply IH ].
    intro Hin. apply entry_names_incl in Hin.
    unfold names_of_kind in H. simpl in H. rewrite Ety in H. simpl in H.
    now inversion H.
Qed.

(** The objects of a successful run are those of any other run, as long as
    no two descriptors of one kind carry the same name. *)
Lemma run_objects_order_independent (f1 f2 f3 g1 g2 g3 : mapOrder) (o : generatorOptions) :
  range_ok f1 -> range_ok f2 -> range_ok f3 ->
  range_ok g1 -> range_ok g2 -> range_ok g3 ->
  NoDup (names_of_kind webhookTypeMutating (entries o)) ->
  NoDup (names_of_kind webhookTypeValidating (entries o)) ->
  run_objects f1 f2 f3 o = run_objects g1 g2 g3 o.
Proof.
  intros F1 F2 F3 G1 G2 G3 Hm Hv. unfold run_objects.
  assert (Em : forall h1 h2, range_ok h1 -> range_ok h2 ->
             sort_Slice (flat_map (entries_of (setDefault o) webhookTypeMutating)
                                  (visited2 h1 h2 o))
             = sort_Slice (flat_map (entries_of (setDefault o) webhookTypeMutating)
                                    (defaulted_entries o))).
  { intros h1 h2 H1 H2. symmetry. apply sort_Slice_order_independent.
    - symmetry. now apply mutating_entries_perm.
    - now apply entry_names_NoDup. }
  assert (Ev : forall h1 h2 h3, range_ok h1 -> range_ok h2 -> range_ok h3 ->
             sort_Slice (flat_map (entries_of (setDefault o) webhookTypeValidating)
                                  (visited3 h1 h2 h3 o))
             = sort_Slice (flat_map (entries_of (setDefault o) webhookTypeValidating)
                                    (defaulted_entries o))).
  { intros h1 h2 h3 H1 H2 H3. symmetry. apply sort_Slice_order_independent.
    - symmetry. now apply validating_entries_perm.
    - now apply entry_names_NoDup. }
  now rewrite (Em f1 f2), (Em g1 g2), (Ev f1 f2 f3), (Ev g1 g2 g3).
Qed.

Lemma Generate_order_independent (f1 f2 f3 g1 g2 g3 : mapOrder)
      (o o' : generatorOptions) (objs : list runtime_Object) :
  range_ok f1 -> range_ok f2 -> range_ok f3 ->
  range_ok g1 -> range_ok g2 -> range_ok g3 ->
  NoDup (names_of_kind webhookTypeMutating (entries o)) ->
  NoDup (names_of_kind webhookTypeValidating (entries o)) ->
  Generate f1 f2 f3 o = Ok (o', objs) ->
  output (Generate g1 g2 g3 o) = Ok objs.
Proof.
  intros F1 F2 F3 G1 G2 G3 Hm Hv H.
  apply Generate_Ok in H as [Hs ->]; try assumption.
  apply run_succeeds_iff in Hs; try assumption.
  apply (run_succeeds_iff g1 g2 g3 o G1 G2 G3) in Hs.
  destruct (Generate_complete g1 g2 g3 o G2 G3 Hs) as (o'' & ->).
  simpl. f_equal. now apply run_objects_order_independent.
Qed.

Lemma Generate_sorted (f1 f2 f3 : mapOrder) (o o' : generatorOptions)
      (objs : list runtime_Object) (obj : K8s.Object) :
  range_ok f2 -> range_ok f3 ->
  Generate f1 f2 f3 o = Ok (o', objs) ->
  In (Some obj) objs ->
  StronglySorted name_le (webhooks_of obj).
Proof.
  intros F2 F3 H Hin. apply Generate_Ok in H as [_ ->]; try assumption.
  unfold run_objects, mutating_objects, validating_objects, getService in Hin.
  repeat rewrite in_app_iff in Hin.
  destruct Hin as [Hin | [Hin | Hin]].
  - destruct (0 <? len _); [ | destruct Hin ].
    destruct Hin as [[= <-] | []]. apply sort_Slice_sorted.
  - destruct (0 <? len _); [ | destruct Hin ].
    destruct Hin as [[= <-] | []]. apply sort_Slice_sorted.
  - destruct (service (setDefault o)); destruct Hin as [[= <-] | []]. constructor.
Qed.

(** ** sort.Slice and the order among equal names *)

Lemma bubble_left_least (x : K8s.Webhook) (acc : list K8s.Webhook) :
  Forall (fun y => name_le y x) acc -> bubble_left x acc = x :: acc.
Proof.
  destruct acc as [ | y acc ]; [ reflexivity | ].
  intro H. inversion H as [ | ? ? Hy _ ]; subst. simpl.
  unfold less. unfold name_le in Hy.
  destruct (String.ltb (K8s.wh_Name x) (K8s.wh_Name y)) eqn:E; [ | reflexivity ].
  apply StringOrder.ltb_iff in E. apply StringOrder.leb_iff in Hy.
  rewrite String.compare_antisym, E in Hy. now elim Hy.
Qed.

Lemma fold_bubble_sorted (l acc : list K8s.Webhook) :
  StronglySorted name_le l ->
  Forall (fun y => Forall (fun x => name_le y x) l) acc ->
  fold_left (fun acc x => bubble_left x acc) l acc = (rev l ++ acc)%list.
Proof.
  revert acc. induction l as [ | x l IH ]; intros acc Hs Hacc; [ reflexivity | ].
  inversion Hs as [ | ? ? Hs' Hx ]; subst.
  cbn [fold_left rev]. rewrite bubble_left_least.
  - rewrite IH; [ now rewrite <- app_assoc | assumption | ].
    constructor; [ assumption | ].
    eapply Forall_impl; [ | exact Hacc ]. intros y Hy. now inversion Hy.
  - eapply Forall_impl; [ | exact Hacc ]. intros y Hy. now inversion Hy.
Qed.

(** A slice that is sorted already is left as it is. *)
Lemma sort_Slice_sorted_id (l : list K8s.Webhook) :
  StronglySorted name_le l -> sort_Slice l = l.
Proof.
  intro H. unfold sort_Slice.
  rewrite (fold_bubble_sorted l [] H) by constructor.
  now rewrite app_nil_r, rev_involutive.
Qed.

(** With pairwise distinct names a slice has one sorted arrangement only:
    whatever a sorting algorithm returns, it is what [sort_Slice] returns. *)
Lemma sorted_arrangement_unique (l out : list K8s.Webhook) :
  Permutation out l -> StronglySorted name_le out ->
  NoDup (map K8s.wh_Name l) -> out = sort_Slice l.
Proof.
  intros Hp Hs Hn. rewrite <- (sort_Slice_sorted_id out Hs).
  apply sort_Slice_order_independent; [ assumption | ].
  eapply Permutation_NoDup; [ | exact Hn ].
  apply Permutation_map. now symmetry.
Qed.

Lemma entries_of_at_most_one (o : generatorOptions) (ty : webhookType)
      (pw : string * admissionWebhook) (e : K8s.Webhook) :
  In e (entries_of o ty pw) -> entries_of o ty pw = [e].
Proof.
  unfold entries_of. destruct (webhookType_eqb (t (snd pw)) ty); [ | intros [] ].
  destruct (getClientConfigWithPath o (fst pw)) as [[cc | ] [err | ]];
    simpl; intro H; try contradiction.
  destruct H as [<- | []]. reflexivity.
Qed.

(** Any arrangement of the entries a loop appends is what the loop appends
    when it visits the registry in another order. *)
Lemma entries_rearranged (o : generatorOptions) (ty : webhookType)
      (out : list K8s.Webhook) (l : registry_t) :
  Permutation out (flat_map (entries_of o ty) l) ->
  exists l', Permutation l' l /\ flat_map (entries_of o ty) l' = out.
Proof.
  revert l. induction out as [ | e out IH ]; intros l Hp.
  - exists l. split; [ apply Permutation_refl | ].
    now apply Permutation_nil.
  - assert (Hin : In e (flat_map (entries_of o ty) l))
      by (eapply Permutation_in; [ exact Hp | now left ]).
    apply in_flat_map in Hin as (pw & Hpw & He).
    apply entries_of_at_most_one in He.
    apply in_split in Hpw as (l1 & l2 & ->).
    assert (Hmid : Permutation (flat_map (entries_of o ty) (l1 ++ pw :: l2))
                               (e :: flat_map (entries_of o ty) (l1 ++ l2))).
    { rewrite !flat_map_app. cbn [flat_map]. rewrite He. cbn [app].
      symmetry. apply Permutation_middle. }
    destruct (IH (l1 ++ l2)%list) as (l' & Hl' & Hout).
    { eapply Permutation_cons_inv. eapply Permutation_trans; [ exact Hp | exact Hmid ]. }
    exists (pw :: l'). split.
    + eapply Permutation_trans; [ apply perm_skip, Hl' | apply Permutation_middle ].
    + cbn [flat_map]. now rewrite He, Hout.
Qed.

(** Whatever sorted arrangement of the appended entries a sorting algorithm
    returns, [sort_Slice] returns it for another order of visiting the
    registry. *)
Lemma any_sorted_arrangement_covered (o : generatorOptions) (ty : webhookType)
      (out : list K8s.Webhook) (l : registry_t) :
  Permutation out (flat_map (entries_of o ty) l) -> StronglySorted name_le out ->
  exists l', Permutation l' l /\ sort_Slice (flat_map (entries_of o ty) l') = out.
Proof.
  intros Hp Hs. destruct (entries_rearranged o ty out l Hp) as (l' & Hl' & Hout).
  exists l'. split; [ assumption | ]. rewrite Hout. now apply sort_Slice_sorted_id.
Qed.

(** ** Generate on an empty registry *)

(** With no descriptor registered, Generate returns one element: what
    getService returns, be it a Service or nil. *)
Lemma Generate_empty_registry (f1 f2 f3 : mapOrder) (o : generatorOptions) :
  range_ok f1 -> range_ok f2 -> range_ok f3 ->
  entries o = [] ->
  output (Generate f1 f2 f3 o) = Ok [getService (setDefault o)].
Proof.
  intros H1 H2 H3 He. unfold Generate, whConfigs.
  rewrite entries_setDefault, He, (range_ok_nil f1 H1). simpl.
  unfold mutatingWHConfigs.
  rewrite entries_set_registry, (range_ok_nil f2 H2). simpl.
  unfold validatingWHConfigs.
  rewrite entries_set_registry, (range_ok_nil f3 H3). simpl.
  reflexivity.
Qed.

Definition no_options : generatorOptions := mkOptions None 0 "" "" "" None None None.

(** C1 at the failing input: with an empty registry and no service
    configured, the list Generate returns is not empty; it holds one element,
    the nil object that getService returned. *)
Theorem Generate_empty_registry_no_service :
  output (Generate range_id range_id range_id no_options) = Ok [None].
Proof. reflexivity. Qed.

(** C10: with both host and service set and an empty registry, Generate
    returns without error (the Service alone); and whenever Generate fails
    with the host/service conflict, the registry holds a descriptor. *)
Theorem Generate_conflict_needs_descriptor (f1 f2 f3 : mapOrder) (o : generatorOptions) :
  range_ok f1 -> range_ok f2 -> range_ok f3 ->
  (forall h sv,
      host o = Some h -> service o = Some sv -> entries o = [] ->
      exists obj,
        getService (setDefault o) = Some obj /\
        output (Generate f1 f2 f3 o) = Ok [Some obj]) /\
  (output (Generate f1 f2 f3 o) = Err ErrURLAndService -> entries o <> []).
Proof.
  intros H1 H2 H3. split.
  - intros h sv Hh Hs He.
    rewrite (Generate_empty_registry f1 f2 f3 o H1 H2 H3 He).
    unfold getService. replace (service (setDefault o)) with (service o) by reflexivity.
    rewrite Hs. eexists. split; reflexivity.
  - intros Herr He.
    rewrite (Generate_empty_registry f1 f2 f3 o H1 H2 H3 He) in Herr. discriminate.
Qed.

Definition conflicting_options : generatorOptions :=
  mkOptions (Some []) 443 "" "" "" None (Some example_service) (Some "localhost").

Lemma Generate_conflict_needs_descriptor_witness :
  exists obj,
    getService (setDefault conflicting_options) = Some obj /\
    output (Generate range_id range_id range_id conflicting_options) = Ok [Some obj].
Proof.
  exact (proj1 (Generate_conflict_needs_descriptor range_id range_id range_id
                  conflicting_options range_id_ok range_id_ok range_id_ok)
               "localhost" example_service eq_refl eq_refl eq_refl).
Defined.

(** ** Order of the entries and of the runs *)

Definition range_rev : mapOrder := fun l => rev l.

Lemma range_rev_ok : range_ok range_rev.
Proof. intro l. symmetry. apply Permutation_rev. Qed.

Definition named_mutating (n p : string) : admissionWebhook :=
  mkAdmissionWebhook n webhookTypeMutating p [pods_rule] None None false 0.

(** Two mutating descriptors that carry the same name, at two paths. *)
Definition same_name_options : generatorOptions :=
  mkOptions (Some [("/x", named_mutating "same.example.com" "/x");
                   ("/y", named_mutating "same.example.com" "/y")])
            0 "" "" "" None None None.

(** C3 as stated fails: with two entries of the same name, two runs over the
    same registry that visit it in different orders return different
    objects. *)
Lemma Generate_order_counterexample :
  range_ok range_id /\ range_ok range_rev /\
  output (Generate range_id range_id range_id same_name_options) <>
  output (Generate range_id range_rev range_id same_name_options).
Proof.
  split; [ exact range_id_ok | ]. split; [ exact range_rev_ok | ].
  vm_compute. discriminate.
Qed.

(** Descriptors named "b.example.com" and "a.example.com", registered in
    that order. *)
Definition b_then_a_options : generatorOptions :=
  mkOptions (Some [("/b", named_mutating "b.example.com" "/b");
                   ("/a", named_mutating "a.example.com" "/a")])
            0 "" "" "" None None None.

Lemma NoDup_names_b_then_a (ty : webhookType) :
  NoDup (names_of_kind ty (entries b_then_a_options)).
Proof.
  unfold names_of_kind. destruct ty; simpl.
  - constructor; [ intros [H | []]; discriminate H | ].
    constructor; [ intros [] | constructor ].
  - constructor.
  - constructor.
Qed.

(** C3, amended: in every object Generate returns the webhook entries are
    sorted by name, ascending; when no two registered descriptors of one kind
    carry the same name, a run that succeeds returns the objects that every
    other run over the same registry returns, whatever the orders in which the
    loops visit the registry; and mutating descriptors named "b.example.com"
    and "a.example.com", registered in that order, come out as
    [a.example.com, b.example.com]. *)
Theorem Generate_sorted_and_order_independent
        (f1 f2 f3 g1 g2 g3 : mapOrder) (o o' : generatorOptions)
        (objs : list runtime_Object) :
  range_ok f1 -> range_ok f2 -> range_ok f3 ->
  range_ok g1 -> range_ok g2 -> range_ok g3 ->
  Generate f1 f2 f3 o = Ok (o', objs) ->
  (forall obj, In (Some obj) objs -> StronglySorted name_le (webhooks_of obj)) /\
  (NoDup (names_of_kind webhookTypeMutating (entries o)) ->
   NoDup (names_of_kind webhookTypeValidating (entries o)) ->
   output (Generate g1 g2 g3 o) = Ok objs) /\
  (exists tm om whs rest,
      output (Generate g1 g2 g3 b_then_a_options)
      = Ok (Some (K8s.MutatingWebhookConfiguration tm om whs) :: rest) /\
      map K8s.wh_Name whs = ["a.example.com"; "b.example.com"]).
Proof.
  intros F1 F2 F3 G1 G2 G3 H. split; [ | split ].
  - intros obj Hin. exact (Generate_sorted f1 f2 f3 o o' objs obj F2 F3 H Hin).
  - intros Hm Hv.
    exact (Generate_order_independent f1 f2 f3 g1 g2 g3 o o' objs
             F1 F2 F3 G1 G2 G3 Hm Hv H).
  - destruct (Generate range_id range_id range_id b_then_a_options)
      as [ [o1 objs1] | e ] eqn:E; [ | vm_compute in E; discriminate E ].
    rewrite (Generate_order_independent range_id range_id range_id g1 g2 g3
               b_then_a_options o1 objs1
               range_id_ok range_id_ok range_id_ok G1 G2 G3
               (NoDup_names_b_then_a _) (NoDup_names_b_then_a _) E).
    vm_compute in E. injection E as _ <-.
    do 4 eexists. split; reflexivity.
Qed.

Lemma Generate_sorted_and_order_independent_witness :
  output (Generate range_rev range_id range_rev b_then_a_options)
  = output (Generate range_id range_id range_id b_then_a_options).
Proof.
  destruct (Generate range_id range_id range_id b_then_a_options)
    as [ [o1 objs1] | e ] eqn:E; [ | vm_compute in E; discriminate E ].
  exact (proj1 (proj2 (Generate_sorted_and_order_independent
                         range_id range_id range_id range_rev range_id range_rev
                         b_then_a_options o1 objs1
                         range_id_ok range_id_ok range_id_ok
                         range_rev_ok range_id_ok range_rev_ok E))
               (NoDup_names_b_then_a _) (NoDup_names_b_then_a _)).
Defined.

(** ** Namespace selectors *)

(** The selector the spec gives an entry: the descriptor's own if it has
    one, else the default when a service with a non-empty namespace is
    configured, else none. *)
Definition expected_selector (o : generatorOptions) (w : admissionWebhook)
  : option K8s.LabelSelector :=
  match namespaceSelector w with
  | Some sel => Some sel
  | None =>
      match service o with
      | Some sv =>
          if String.eqb (service_namespace sv) "" then None
          else Some default_namespaceSelector
      | None => None
      end
  end.

(** Entry [e] is the one assembled for descriptor [w] registered at [p]. *)
Definition assembled (o : generatorOptions) (p : string) (w : admissionWebhook)
           (e : K8s.Webhook) : Prop :=
  K8s.wh_Name e = name (once_Do setDefaults w) /\
  K8s.wh_Rules e = rules w /\
  K8s.wh_FailurePolicy e = failurePolicy w /\
  getClientConfigWithPath (setDefault o) p = (Some (K8s.wh_ClientConfig e), None) /\
  K8s.wh_NamespaceSelector e = expected_selector o w.

Lemma with_selector_expected (o : generatorOptions) (w : admissionWebhook) :
  namespaceSelector (with_selector (setDefault o) (once_Do setDefaults w))
  = expected_selector o w.
Proof.
  unfold with_selector, expected_selector.
  destruct (once_Do_fields w) as (_ & _ & _ & Hs). rewrite Hs.
  replace (service (setDefault o)) with (service o) by reflexivity.
  destruct (namespaceSelector w) as [ sel | ] eqn:E; simpl.
  - exact Hs.
  - destruct (service o) as [ sv | ]; [ | exact Hs ].
    destruct (service_namespace sv); simpl; [ exact Hs | reflexivity ].
Qed.

Lemma in_entries_of_defaulted (o : generatorOptions) (ty : webhookType)
      (p : string) (w : admissionWebhook) (e : K8s.Webhook) :
  In e (entries_of (setDefault o) ty (defaulted_entry (p, w))) <->
  t w = ty /\ assembled o p w e.
Proof.
  unfold entries_of, defaulted_entry, assembled. cbn [fst snd].
  destruct (once_Do_fields w) as (Ht & Hr & Hf & _). rewrite Ht.
  destruct (with_selector_fields (setDefault o) (once_Do setDefaults w))
    as (Hn' & _ & Hr' & Hf').
  pose proof (with_selector_expected o w) as Hsel.
  destruct (webhookType_eqb (t w) ty) eqn:Hty.
  - apply webhookType_eqb_eq in Hty.
    destruct (getClientConfigWithPath (setDefault o) p) as [[cc | ] [err | ]];
      simpl; try (split; [ tauto | intros (_ & _ & _ & _ & H & _); discriminate H ]).
    split.
    + intros [<- | []]. simpl. rewrite Hn', Hr', Hf', Hr, Hf, Hsel. tauto.
    + intros (_ & Hn & Hru & Hfp & Hcc & Hs). left.
      injection Hcc as Hcc. destruct e as [en ecc er ef es]. simpl in *.
      unfold entry_with. congruence.
  - apply webhookType_eqb_neq in Hty. simpl. tauto.
Qed.

Lemma Permutation_in_iff {A} (x : A) (l l' : list A) :
  Permutation l l' -> (In x l <-> In x l').
Proof.
  intro H. split; apply Permutation_in; [ assumption | now symmetry ].
Qed.

Section Selectors.

Variables f1 f2 f3 : mapOrder.
Variables o o' : generatorOptions.
Variable objs : list runtime_Object.
Hypothesis f1_ok : range_ok f1.
Hypothesis f2_ok : range_ok f2.
Hypothesis f3_ok : range_ok f3.
Hypothesis run : Generate f1 f2 f3 o = Ok (o', objs).

Lemma in_emitted (e : K8s.Webhook) :
  In e (emitted objs) <->
  exists ty, supported ty /\
             In e (flat_map (entries_of (setDefault o) ty) (defaulted_entries o)).
Proof.
  destruct (Generate_Ok f1 f2 f3 o f2_ok f3_ok o' objs run) as [_ ->].
  unfold run_objects.
  rewrite !emitted_app, emitted_mutating_objects, emitted_validating_objects,
          emitted_getService, app_nil_r, in_app_iff.
  rewrite (Permutation_in_iff e _ _ (sort_Slice_perm _)).
  rewrite (Permutation_in_iff e _ _ (mutating_entries_perm f1 f2 o f1_ok f2_ok)).
  rewrite (Permutation_in_iff e _ _ (sort_Slice_perm _)).
  rewrite (Permutation_in_iff e _ _ (validating_entries_perm f1 f2 f3 o f1_ok f2_ok f3_ok)).
  split.
  - intros [H | H]; eexists; (split; [ | exact H ]); [ now left | now right ].
  - intros (ty & [-> | ->] & H); [ now left | now right ].
Qed.

Lemma emitted_assembled (e : K8s.Webhook) :
  In e (emitted objs) <-> exists p w, In (p, w) (entries o) /\ assembled o p w e.
Proof.
  rewrite in_emitted. split.
  - intros (ty & _ & H). apply in_flat_map in H as (pw & Hin & He).
    unfold defaulted_entries in Hin. apply in_map_iff in Hin as ([p w] & <- & Hin).
    apply in_entries_of_defaulted in He as [_ He]. now exists p, w.
  - intros (p & w & Hin & He).
    destruct (Generate_Ok f1 f2 f3 o f2_ok f3_ok o' objs run) as [(Hv & _) _].
    apply (Forall_perm_iff _ _ _ (visited1_perm f1 o f1_ok)) in Hv.
    rewrite Forall_forall in Hv. specialize (Hv _ Hin). simpl in Hv.
    exists (t w). split; [ now apply valid_supported | ].
    apply in_flat_map. exists (defaulted_entry (p, w)). split.
    + unfold defaulted_entries. now apply in_map.
    + now apply in_entries_of_defaulted.
Qed.

End Selectors.

(** C7: when Generate succeeds, the emitted webhook entries are exactly the
    entries assembled from the registered descriptors, and the entry of a
    descriptor carries the descriptor's own namespace selector when it has
    one, and otherwise, when a service with a non-empty namespace is
    configured, the default selector: a DoesNotExist requirement on key
    "control-plane". *)
Theorem Generate_namespace_selector
        (f1 f2 f3 : mapOrder) (o o' : generatorOptions) (objs : list runtime_Object) :
  range_ok f1 -> range_ok f2 -> range_ok f3 ->
  Generate f1 f2 f3 o = Ok (o', objs) ->
  (forall p w, In (p, w) (entries o) ->
     exists e, In e (emitted objs) /\ assembled o p w e) /\
  (forall e, In e (emitted objs) ->
     exists p w, In (p, w) (entries o) /\ assembled o p w e) /\
  (forall p w e, assembled o p w e ->
     (forall sel, namespaceSelector w = Some sel ->
                  K8s.wh_NamespaceSelector e = Some sel) /\
     (forall sv, namespaceSelector w = None -> service o = Some sv ->
                 service_namespace sv <> "" ->
                 K8s.wh_NamespaceSelector e
                 = Some (K8s.mkLabelSelector []
                           [K8s.mkRequirement "control-plane"
                                              K8s.LabelSelectorOpDoesNotExist []]))).
Proof.
  intros F1 F2 F3 H. split; [ | split ].
  - intros p w Hin.
    destruct (getClientConfigWithPath_cases (setDefault o) p)
      as [ (cc & Hcc) | (x & err & Hcc) ].
    + exists (entry_with (with_selector (setDefault o) (once_Do setDefaults w)) cc).
      assert (Ha : assembled o p w
                     (entry_with (with_selector (setDefault o) (once_Do setDefaults w)) cc)).
      { apply (in_entries_of_defaulted o (t w) p w). unfold entries_of, defaulted_entry.
        cbn [fst snd]. destruct (once_Do_fields w) as (-> & _).
        replace (webhookType_eqb (t w) (t w)) with true
          by (symmetry; now apply webhookType_eqb_eq).
        rewrite Hcc. now left. }
      split; [ | exact Ha ].
      apply (emitted_assembled f1 f2 f3 o o' objs F1 F2 F3 H). now exists p, w.
    + exfalso.
      destruct (Generate_Ok f1 f2 f3 o F2 F3 o' objs H) as [Hs _].
      apply (run_succeeds_iff f1 f2 f3 o F1 F2 F3) in Hs as (Hv & Hm & Hva).
      rewrite Forall_forall in Hv, Hm, Hva.
      pose proof (valid_supported w (Hv _ Hin)) as Hsup.
      assert (Hd : In (defaulted_entry (p, w)) (defaulted_entries o))
        by (unfold defaulted_entries; now apply in_map).
      assert (Hr : exists cc, getClientConfigWithPath (setDefault o) p = (Some cc, None)).
      { destruct Hsup as [Hsup | Hsup];
          [ apply (Hm _ Hd) | apply (Hva _ Hd) ];
          unfold defaulted_entry; cbn [fst snd];
          destruct (once_Do_fields w) as (-> & _); now apply webhookType_eqb_eq. }
      destruct Hr as (cc & Hr). congruence.
  - intros e Hin. now apply (emitted_assembled f1 f2 f3 o o' objs F1 F2 F3 H).
  - intros p w e (_ & _ & _ & _ & Hsel). unfold expected_selector in Hsel. split.
    + intros sel Hw. now rewrite Hw in Hsel.
    + intros sv Hw Hsv Hns. rewrite Hw, Hsv in Hsel.
      apply String.eqb_neq in Hns. now rewrite Hns in Hsel.
Qed.

(** ** The client configuration URL *)

Module StringFacts.

Import strs.

Lemma All_app (p : ascii -> bool) (a b : string) :
  All p (a ++ b) = All p a && All p b.
Proof.
  induction a as [ | c a IH ]; simpl; [ reflexivity | ].
  now rewrite IH, andb_assoc.
Qed.

Lemma All_impl (p q : ascii -> bool) (s : string) :
  (forall c, p c = true -> q c = true) -> All p s = true -> All q s = true.
Proof.
  intro H. induction s as [ | c s IH ]; simpl; [ reflexivity | ].
  intro E. apply andb_true_iff in E as [Hc Hs].
  now rewrite (H c Hc), (IH Hs).
Qed.

Definition is_not (x : ascii) (c : ascii) : bool := negb (Ascii.eqb c x).

Lemma ContainsByte_All (s : string) (x : ascii) :
  All (is_not x) s = true -> ContainsByte s x = false.
Proof.
  unfold is_not. induction s as [ | c s IH ]; simpl; [ reflexivity | ].
  intro E. apply andb_true_iff in E as [Hc Hs].
  apply negb_true_iff in Hc. now rewrite Hc, (IH Hs).
Qed.

Lemma CutFirst_None (s : string) (x : ascii) :
  ContainsByte s x = false -> CutFirst s x = None.
Proof.
  induction s as [ | c s IH ]; simpl; [ reflexivity | ].
  intro E. apply orb_false_iff in E as [Hc Hs]. now rewrite Hc, (IH Hs).
Qed.

Lemma CutLast_None (s : string) (x : ascii) :
  ContainsByte s x = false -> CutLast s x = None.
Proof.
  induction s as [ | c s IH ]; simpl; [ reflexivity | ].
  intro E. apply orb_false_iff in E as [Hc Hs]. now rewrite Hc, (IH Hs).
Qed.

Lemma CutLast_app (a b : string) (x : ascii) :
  ContainsByte b x = false ->
  CutLast (a ++ String x b) x = Some (a, String x b).
Proof.
  intro Hb. induction a as [ | c a IH ]; simpl.
  - now rewrite (CutLast_None b x Hb), Ascii.eqb_refl.
  - now rewrite IH.
Qed.

Lemma Unsnoc_All (p : ascii -> bool) (s init : string) (last : ascii) :
  Unsnoc s = Some (init, last) -> All p s = true -> p last = true.
Proof.
  revert init. induction s as [ | c s IH ]; intros init; simpl; [ discriminate | ].
  destruct (Unsnoc s) as [ [i z] | ].
  - intros [= <- <-] E. apply andb_true_iff in E as [_ Hs]. now apply (IH i).
  - intros [= <- <-] E. now apply andb_true_iff in E as [Hc _].
Qed.

Lemma prefix_false (c : ascii) (s : string) :
  match s with String a _ => Ascii.eqb a c | EmptyString => false end = false ->
  String.prefix (String c EmptyString) s = false.
Proof.
  destruct s as [ | a s ]; simpl; [ reflexivity | ].
  intro H. destruct (ascii_dec c a) as [ -> | Hne ].
  - now rewrite Ascii.eqb_refl in H.
  - reflexivity.
Qed.

(** The decimal digits of a number that is not negative. *)
Lemma string_of_uint_digits (d : Decimal.uint) :
  All is_digit (DecimalString.NilEmpty.string_of_uint d) = true.
Proof. induction d; simpl; try reflexivity; assumption. Qed.

Lemma Itoa_digits (n : Z) : 0 <= n -> All is_digit (strconv.Itoa n) = true.
Proof.
  intro Hn. unfold strconv.Itoa. destruct n as [ | q | q ]; [ reflexivity | | lia ].
  simpl. unfold DecimalString.NilZero.string_of_uint.
  destruct (Pos.to_uint q) eqn:E; try reflexivity;
    rewrite <- E; apply string_of_uint_digits.
Qed.

End StringFacts.

Module URLFacts.

Import strs StringFacts.

(** Bytes that URL.String writes as they are in a host, and Parse accepts. *)
Definition host_byte (c : ascii) : bool := negb (url.shouldEscape c url.encodeHost).

(** Bytes that URL.String writes as they are in a path. *)
Definition path_byte (c : ascii) : bool := negb (url.shouldEscape c url.encodePath).

Lemma shouldEscape_space (mode : url.encoding) : url.shouldEscape " " mode = true.
Proof. destruct mode; reflexivity. Qed.

Lemma escape_plain (mode : url.encoding) (s : string) :
  All (fun c => negb (url.shouldEscape c mode)) s = true -> url.escape s mode = s.
Proof.
  induction s as [ | c s IH ]; simpl; [ reflexivity | ].
  intro E. apply andb_true_iff in E as [Hc Hs]. apply negb_true_iff in Hc.
  rewrite (IH Hs), Hc.
  destruct (Ascii.eqb c " ") eqn:Esp.
  - apply Ascii.eqb_eq in Esp. subst c. now rewrite shouldEscape_space in Hc.
  - reflexivity.
Qed.

Lemma host_byte_not (x : ascii) :
  url.shouldEscape x url.encodeHost = true ->
  forall c, host_byte c = true -> is_not x c = true.
Proof.
  intros Hx c Hc. unfold is_not, host_byte in *. apply negb_true_iff in Hc.
  apply negb_true_iff. apply Ascii.eqb_neq. intros ->. congruence.
Qed.

Lemma host_bytes_without (x : ascii) (s : string) :
  url.shouldEscape x url.encodeHost = true ->
  All host_byte s = true -> ContainsByte s x = false.
Proof.
  intros Hx Hs. apply ContainsByte_All.
  now apply (All_impl host_byte _ s (host_byte_not x Hx)).
Qed.

Lemma unescape_host_plain (s : string) :
  All host_byte s = true -> url.unescape s url.encodeHost = url.ROk s.
Proof.
  induction s as [ | c s IH ]; [ reflexivity | ].
  intro E. simpl in E. apply andb_true_iff in E as [Hc Hs].
  unfold host_byte in Hc. apply negb_true_iff in Hc.
  cbn [url.unescape]. rewrite (IH Hs).
  destruct (Ascii.eqb c "%") eqn:Epc.
  { apply Ascii.eqb_eq in Epc. subst c. discriminate Hc. }
  destruct (Ascii.eqb c "+") eqn:Epl.
  { apply Ascii.eqb_eq in Epl. now subst c. }
  now rewrite Hc, andb_false_r.
Qed.

Lemma split_absent (s : string) (c : ascii) (cutc : bool) :
  ContainsByte s c = false -> url.split s c cutc = (s, "").
Proof. intro H. unfold url.split. now rewrite (CutFirst_None s c H). Qed.

Lemma digit_host_byte (c : ascii) : is_digit c = true -> host_byte c = true.
Proof.
  intro H. unfold host_byte, url.shouldEscape. rewrite H.
  now rewrite !orb_true_r.
Qed.

Lemma digit_is_not_colon (c : ascii) : is_digit c = true -> is_not ":" c = true.
Proof.
  intro H. unfold is_not. apply negb_true_iff, Ascii.eqb_neq. intros ->. discriminate H.
Qed.

Section HostPort.

Variables h digits : string.
Hypothesis h_bytes : All host_byte h = true.
Hypothesis h_colon : ContainsByte h ":" = false.
Hypothesis h_bracket : HasPrefix h "[" = false.
Hypothesis port_digits : All is_digit digits = true.

Definition hostport : string := h ++ ":" ++ digits.

Lemma hostport_bytes : All host_byte hostport = true.
Proof.
  unfold hostport. rewrite All_app, h_bytes. simpl.
  apply (All_impl is_digit host_byte digits digit_host_byte port_digits).
Qed.

Lemma hostport_bracket : HasPrefix hostport "[" = false.
Proof.
  pose proof h_bracket as Hb.
  unfold hostport, HasPrefix in *. destruct h as [ | c h' ]; [ reflexivity | ].
  cbn [append String.prefix] in *.
  destruct (ascii_dec "[" c); [ | reflexivity ].
  destruct h'; discriminate Hb.
Qed.

Lemma JoinHostPort_plain : net.JoinHostPort h digits = hostport.
Proof. unfold net.JoinHostPort. now rewrite h_colon. Qed.

Lemma parseHost_hostport : url.parseHost hostport = url.ROk hostport.
Proof.
  unfold url.parseHost. rewrite hostport_bracket.
  unfold hostport at 1. simpl append.
  rewrite (CutLast_app h digits ":").
  - simpl. rewrite port_digits. simpl. apply unescape_host_plain, hostport_bytes.
  - apply ContainsByte_All.
    apply (All_impl is_digit _ digits digit_is_not_colon port_digits).
Qed.

Lemma parseAuthority_hostport :
  url.parseAuthority hostport = url.ROk (None, hostport).
Proof.
  unfold url.parseAuthority.
  rewrite (CutLast_None hostport "@")
    by (apply host_bytes_without; [ reflexivity | apply hostport_bytes ]).
  now rewrite parseHost_hostport.
Qed.

Lemma Parse_hostport :
  url.Parse ("https://" ++ hostport)
  = url.ROk (url.mkURL "https" "" None hostport "" "" false "" "").
Proof.
  pose proof hostport_bytes as Hb.
  assert (Hno : forall x, url.shouldEscape x url.encodeHost = true ->
                          ContainsByte hostport x = false)
    by (intros x Hx; now apply host_bytes_without).
  unfold url.Parse.
  rewrite split_absent by (simpl; apply (Hno "#"%char eq_refl)).
  unfold url.parse, url.bind.
  change (url.getscheme ("https://" ++ hostport)) with (url.ROk ("https", "//" ++ hostport)).
  change (String.eqb ("https://" ++ hostport) "*") with false.
  cbv iota beta.
  change (ToLower "https") with "https".
  assert (Hq : ContainsByte ("//" ++ hostport) "?" = false)
    by (simpl; apply (Hno "?"%char eq_refl)).
  assert (Hsplit :
            match Unsnoc ("//" ++ hostport) with
            | Some (init, last) =>
                if Ascii.eqb last "?" && (CountByte ("//" ++ hostport) "?" =? 1)%nat
                then (true, init, "")
                else let '(r, q) := url.split ("//" ++ hostport) "?" true in (false, r, q)
            | None => let '(r, q) := url.split ("//" ++ hostport) "?" true in (false, r, q)
            end = (false, "//" ++ hostport, "")).
  { rewrite (split_absent _ "?" true Hq).
    destruct (Unsnoc ("//" ++ hostport)) as [ [init last] | ] eqn:E; [ | reflexivity ].
    assert (Hl : is_not "?" last = true).
    { apply (Unsnoc_All (is_not "?") _ init last E). simpl.
      apply (All_impl host_byte _ hostport (host_byte_not "?" eq_refl) Hb). }
    unfold is_not in Hl. apply negb_true_iff in Hl. now rewrite Hl. }
  rewrite Hsplit. cbv iota beta.
  change (HasPrefix ("//" ++ hostport) "/") with true.
  replace (HasPrefix ("//" ++ hostport) "//") with true
    by (unfold HasPrefix; generalize hostport; intros [ | ? ? ]; reflexivity).
  change (url.nonempty "https") with true.
  cbv iota beta. cbn [negb orb].
  change (url.tail (url.tail ("//" ++ hostport))) with hostport.
  rewrite (split_absent hostport "/" false (Hno "/"%char eq_refl)).
  rewrite parseAuthority_hostport.
  reflexivity.
Qed.

End HostPort.

End URLFacts.

Module ClientConfigURL.

Import strs StringFacts URLFacts.

(** What URL.String writes for a path set after parsing. *)
Definition escaped_path (p : string) : string :=
  if String.eqb p "*" then "*" else url.escape p url.encodePath.

(** The slash URL.String puts before a path that does not start with one. *)
Definition leading_slash (esc : string) : string :=
  match esc with
  | String c _ => if Ascii.eqb c "/" then "" else "/"
  | EmptyString => ""
  end.

(** Hosts that reach the URL unchanged: no byte that is escaped in a host,
    no colon (such a host is put in brackets), no opening bracket in front. *)
Definition host_plain (h : string) : bool :=
  All host_byte h && negb (ContainsByte h ":") && negb (HasPrefix h "[").

(** Paths that reach the URL unchanged: empty or starting with a slash, and
    no byte that is escaped in a path. *)
Definition path_plain (p : string) : bool :=
  All path_byte p &&
  match p with String c _ => Ascii.eqb c "/" | EmptyString => true end.

Lemma append_empty_r (s : string) : s ++ "" = s.
Proof. induction s; simpl; congruence. Qed.

Lemma append_assoc (a b c : string) : (a ++ b) ++ c = a ++ b ++ c.
Proof. induction a; simpl; congruence. Qed.

Lemma URL_String_https (hp p : string) :
  hp <> "" -> All host_byte hp = true ->
  url.URL_String (url.mkURL "https" "" None hp p "" false "" "")
  = "https://" ++ hp ++ leading_slash (escaped_path p) ++ escaped_path p.
Proof.
  intros Hne Hb. unfold url.URL_String.
  cbn [url.Scheme url.Opaque url.User url.Host url.Path url.RawPath
       url.ForceQuery url.RawQuery url.Fragment].
  assert (Hn : url.nonempty hp = true).
  { unfold url.nonempty. apply negb_true_iff. now apply String.eqb_neq. }
  rewrite Hn.
  change (url.nonempty "https") with true. change (url.nonempty "") with false.
  cbn [orb negb].
  rewrite (escape_plain url.encodeHost hp Hb).
  change (url.EscapedPath _) with (escaped_path p).
  destruct (escaped_path p) as [ | c e ]; cbn [leading_slash append String.eqb].
  - now rewrite append_empty_r.
  - destruct (Ascii.eqb c "/"); cbn [negb andb append String.eqb];
      rewrite ?append_assoc; reflexivity.
Qed.

Lemma hostport_nonempty (h digits : string) : hostport h digits <> "".
Proof. unfold hostport. destruct h; discriminate. Qed.

Lemma escaped_path_plain (p : string) :
  path_plain p = true -> escaped_path p = p /\ leading_slash p = "".
Proof.
  unfold path_plain, escaped_path. intro H. apply andb_true_iff in H as [Hb Hs].
  rewrite (escape_plain url.encodePath p Hb).
  destruct p as [ | c p ]; [ now split | ].
  apply Ascii.eqb_eq in Hs. subst c. now split.
Qed.

(** The client configuration for a plain host, whatever the path. *)
Lemma getClientConfigWithPath_plain_host (o : generatorOptions) (h p : string) :
  host o = Some h -> service o = None -> host_plain h = true -> 0 <= port o ->
  getClientConfigWithPath o p
  = (Some (K8s.mkClientConfig
             (Some ("https://" ++ h ++ ":" ++ strconv.Itoa (port o) ++
                    leading_slash (escaped_path p) ++ escaped_path p))
             None []),
     None).
Proof.
  intros Hh Hs Hp Hport. unfold host_plain in Hp.
  apply andb_true_iff in Hp as [Hp Hbr]. apply andb_true_iff in Hp as [Hb Hc].
  apply negb_true_iff in Hbr, Hc.
  pose proof (Itoa_digits (port o) Hport) as Hd.
  unfold getClientConfigWithPath, getClientConfig. rewrite Hh, Hs. cbn [isNil negb andb].
  rewrite (JoinHostPort_plain h (strconv.Itoa (port o)) Hc).
  rewrite (URL_String_https (hostport h (strconv.Itoa (port o))) "")
    by (try apply hostport_nonempty; now apply hostport_bytes).
  change (leading_slash (escaped_path "") ++ escaped_path "") with "".
  rewrite append_empty_r.
  unfold setPath. cbn [K8s.cc_URL K8s.cc_Service K8s.cc_CABundle].
  rewrite (Parse_hostport h (strconv.Itoa (port o)) Hb Hc Hbr Hd).
  unfold url.set_Path.
  cbn [url.Scheme url.Opaque url.User url.Host url.Path url.RawPath
       url.ForceQuery url.RawQuery url.Fragment].
  rewrite (URL_String_https (hostport h (strconv.Itoa (port o))) p)
    by (try apply hostport_nonempty; now apply hostport_bytes).
  cbn [K8s.cc_Service]. unfold hostport. now rewrite append_assoc.
Qed.

Lemma setPath_CABundle (cc : K8s.WebhookClientConfig) (p : string) :
  K8s.cc_CABundle (fst (setPath cc p)) = K8s.cc_CABundle cc.
Proof.
  unfold setPath. destruct (K8s.cc_URL cc) as [ raw | ].
  - destruct (url.Parse raw); [ | reflexivity ].
    cbn [K8s.cc_Service]. now destruct (K8s.cc_Service cc).
  - now destruct (K8s.cc_Service cc).
Qed.

Lemma getClientConfigWithPath_CABundle (o : generatorOptions) (p : string)
      (cc : K8s.WebhookClientConfig) :
  fst (getClientConfigWithPath o p) = Some cc -> K8s.cc_CABundle cc = [].
Proof.
  unfold getClientConfigWithPath, getClientConfig.
  destruct (negb (isNil (host o)) && negb (isNil (service o))); [ discriminate | ].
  match goal with |- context [ setPath ?c p ] => pose proof (setPath_CABundle c p) as H end.
  destruct (setPath _ p) as [cc' err]. simpl in *. now intros [= <-].
Qed.

End ClientConfigURL.

Definition host_options (h : string) (p : Z) : generatorOptions :=
  mkOptions None p "" "" "" None None (Some h).

(** C8 as stated fails: a host with a colon comes out in brackets, and a
    path byte that a URL does not allow comes out escaped. *)
Lemma getClientConfigWithPath_URL_counterexample :
  host (host_options "::1" 443) = Some "::1" /\
  service (host_options "::1" 443) = None /\
  getClientConfigWithPath (host_options "::1" 443) "/validate-pods"
  = (Some (K8s.mkClientConfig (Some "https://[::1]:443/validate-pods") None []), None) /\
  "https://[::1]:443/validate-pods"
  <> "https://" ++ "::1" ++ ":" ++ strconv.Itoa 443 ++ "/validate-pods" /\
  getClientConfigWithPath (host_options "localhost" 443) "/validate pods"
  = (Some (K8s.mkClientConfig (Some "https://localhost:443/validate%20pods") None []), None) /\
  "https://localhost:443/validate%20pods"
  <> "https://" ++ "localhost" ++ ":" ++ strconv.Itoa 443 ++ "/validate pods".
Proof. repeat split; discriminate. Qed.

(** C8, amended: with host set and service unset, a port that is not
    negative, a host made of bytes a URL host takes unescaped, without a
    colon and not starting with a bracket, and a path that is empty or starts
    with a slash and is made of bytes a URL path takes unescaped, the client
    configuration holds the URL "https://" host ":" port path; host
    "localhost", port 443 and path "/validate-pods" give
    "https://localhost:443/validate-pods"; and the CABundle of every client
    configuration built is empty. *)
Theorem getClientConfigWithPath_URL (o : generatorOptions) (h p : string) :
  host o = Some h -> service o = None -> 0 <= port o ->
  ClientConfigURL.host_plain h = true -> ClientConfigURL.path_plain p = true ->
  getClientConfigWithPath o p
  = (Some (K8s.mkClientConfig
             (Some ("https://" ++ h ++ ":" ++ strconv.Itoa (port o) ++ p)) None []),
     None) /\
  getClientConfigWithPath (host_options "localhost" 443) "/validate-pods"
  = (Some (K8s.mkClientConfig (Some "https://localhost:443/validate-pods") None []), None) /\
  (forall o' p' cc, fst (getClientConfigWithPath o' p') = Some cc ->
                    K8s.cc_CABundle cc = []).
Proof.
  intros Hh Hs Hport Hhost Hpath. split; [ | split ].
  - rewrite (ClientConfigURL.getClientConfigWithPath_plain_host o h p Hh Hs Hhost Hport).
    destruct (ClientConfigURL.escaped_path_plain p Hpath) as [-> ->]. reflexivity.
  - reflexivity.
  - exact ClientConfigURL.getClientConfigWithPath_CABundle.
Qed.

Lemma getClientConfigWithPath_URL_witness :
  getClientConfigWithPath (host_options "webhook.example.org" 8443) "/mutate-pods"
  = (Some (K8s.mkClientConfig (Some "https://webhook.example.org:8443/mutate-pods")
                              None []),
     None).
Proof.
  apply (getClientConfigWithPath_URL
           (host_options "webhook.example.org" 8443)
           "webhook.example.org" "/mutate-pods");
    try reflexivity.
  simpl. lia.
Defined.

Definition service_options : generatorOptions :=
  mkOptions (Some [("/mutate-pods", named_mutating "" "")])
            0 "" "" "" None (Some example_service) None.

Lemma Generate_namespace_selector_witness :
  match Generate range_id range_id range_id service_options with
  | Ok (_, objs) =>
      exists e, In e (emitted objs) /\
                assembled service_options "/mutate-pods" (named_mutating "" "") e
  | Err _ => False
  end.
Proof.
  destruct (Generate range_id range_id range_id service_options)
    as [ [o1 objs1] | e ] eqn:E; [ | vm_compute in E; discriminate E ].
  apply (proj1 (Generate_namespace_selector range_id range_id range_id
                  service_options o1 objs1 range_id_ok range_id_ok range_id_ok E)).
  now left.
Defined.

(** * Further properties of the descriptor *)

(** X1: setDefaults only ever fills an empty path and an empty name: the
    kind, the rules, the failure policy, the namespace selector and the guard
    are left alone, and a path or a name the caller supplied is kept. *)
Theorem setDefaults_keeps_supplied (w : admissionWebhook) :
  t (setDefaults w) = t w /\
  rules (setDefaults w) = rules w /\
  failurePolicy (setDefaults w) = failurePolicy w /\
  namespaceSelector (setDefaults w) = namespaceSelector w /\
  once (setDefaults w) = once w /\
  (path w <> "" -> path (setDefaults w) = path w) /\
  (name w <> "" -> name (setDefaults w) = name w).
Proof.
  destruct (setDefaults_fields w) as (Ht & Hr & Hf & Hs).
  repeat split; try assumption.
  - destruct w as [n ty p r fp ns o k]. unfold setDefaults; simpl.
    repeat (match goal with
            | |- context [ if ?c then _ else _ ] => destruct c
            | |- context [ match ?l with [] => _ | _ :: _ => _ end ] => destruct l
            end; simpl); reflexivity.
  - intro Hp. apply len_string_0_false in Hp. unfold setDefaults. rewrite Hp.
    destruct (len_string (name w) =? 0); reflexivity.
  - intro Hn. apply len_string_0_false in Hn.
    destruct w as [n ty p r fp ns o k]. unfold setDefaults; simpl in *.
    repeat (match goal with
            | |- context [ if ?c then _ else _ ] => destruct c eqn:?
            | |- context [ match ?l with [] => _ | _ :: _ => _ end ] => destruct l
            end; simpl in *); try reflexivity; congruence.
Qed.

Definition lower_or_digit (c : ascii) : bool := strs.is_lower c || strs.is_digit c.

Lemma to_lower_alnum (c : ascii) :
  strs.is_alnum c = true -> lower_or_digit (strs.to_lower_ascii c) = true.
Proof.
  unfold strs.is_alnum, lower_or_digit, strs.to_lower_ascii.
  destruct (strs.is_upper c) eqn:Hu.
  - intros _. unfold strs.is_upper in Hu. unfold strs.is_lower.
    apply andb_true_iff in Hu as [H1 H2].
    apply Nat.leb_le in H1, H2.
    rewrite nat_ascii_embedding by lia.
    apply orb_true_iff. left. apply andb_true_iff.
    split; apply Nat.leb_le; lia.
  - rewrite orb_false_r. intro H. exact H.
Qed.

Lemma ToLower_keep_alnum (s : string) :
  strs.All lower_or_digit (strs.ToLower (keep_alnum s)) = true.
Proof.
  induction s as [ | c s IH ]; simpl; [ reflexivity | ].
  destruct (strs.is_alnum c) eqn:E; [ | exact IH ].
  simpl. now rewrite (to_lower_alnum c E), IH.
Qed.

(** X2: a name that setDefaults derives is made of lower-case ASCII letters
    and digits followed by ".example.com". *)
Theorem setDefaults_name_alphabet (w : admissionWebhook) :
  name w = "" -> ~ cannot_default w ->
  exists s, name (setDefaults w) = s ++ ".example.com" /\
            strs.All lower_or_digit s = true.
Proof.
  intros Hn Hc.
  exists (strs.ToLower (keep_alnum (path (setDefaults w)))). split.
  - unfold setDefaults.
    destruct (len_string (path w) =? 0) eqn:Hp.
    + apply len_string_0 in Hp.
      destruct (rules w) as [ | r rs ] eqn:Hr.
      { exfalso. apply Hc. split; [ assumption | now left ]. }
      destruct (K8s.Resources r) as [ | res ress ] eqn:Hres.
      { exfalso. apply Hc. split; [ assumption | right; now exists r, rs ]. }
      destruct (webhookType_eqb (t w) webhookTypeMutating);
        [ | destruct (webhookType_eqb (t w) webhookTypeValidating) ];
        simpl; rewrite Hn; simpl; unfold ReplaceAllString;
        rewrite ?replace_runs_empty; reflexivity.
    + rewrite Hn. simpl. now rewrite ReplaceAllString_empty.
  - apply ToLower_keep_alnum.
Qed.

Lemma setDefaults_name_alphabet_witness :
  exists s,
    name (setDefaults (mkAdmissionWebhook "" webhookTypeValidating "/Validate-Pods_v1" []
                                          None None false 0))
    = s ++ ".example.com" /\
    strs.All lower_or_digit s = true.
Proof.
  apply setDefaults_name_alphabet.
  - reflexivity.
  - intros [Hp _]. discriminate Hp.
Defined.

(** X3: a descriptor that has not been defaulted yet, of a supported kind,
    whose first rule names a resource, passes Validate whatever its name and
    path are: defaulting supplies what is missing. *)
Theorem Validate_defaultable (w : admissionWebhook) (r : K8s.RuleWithOperations)
        (rs : list K8s.RuleWithOperations) (res : string) (ress : list string) :
  once w = false -> supported (t w) ->
  rules w = r :: rs -> K8s.Resources r = res :: ress ->
  snd (Validate w) = None.
Proof.
  intros Ho Hs Hr Hres.
  destruct w as [n ty p rl fp ns o k]. simpl in *. subst o rl.
  unfold Validate, once_Do, setDefaults; simpl. rewrite Hres.
  destruct Hs as [-> | ->]; simpl;
    destruct p as [ | c p ]; destruct n as [ | c' n ]; simpl;
    repeat match goal with
           | |- context [ len_string ?x =? 0 ] =>
               let E := fresh in
               destruct (len_string x =? 0) eqn:E;
               [ apply len_string_0 in E;
                 first [ discriminate E
                       | exfalso; exact (append_suffix_nonempty _ E) ]
               | ]
           end; reflexivity.
Qed.

Lemma Validate_defaultable_witness :
  snd (Validate (mkAdmissionWebhook "" webhookTypeMutating "" [pods_rule]
                                    None None false 0)) = None.
Proof.
  apply (Validate_defaultable _ pods_rule [] "pods" []); try reflexivity.
  now left.
Defined.

(** X4: a descriptor without rules never passes Validate: the error is the
    one for empty rules, whatever the other fields and whether or not it has
    been defaulted before. *)
Theorem Validate_no_rules (w : admissionWebhook) :
  rules w = [] -> snd (Validate w) = Some ErrRulesEmpty.
Proof.
  intro Hr. unfold Validate.
  destruct (once_Do_fields w) as (_ & Hr' & _). rewrite Hr in Hr'.
  now rewrite Hr'.
Qed.

Lemma Validate_no_rules_witness :
  snd (Validate (mkAdmissionWebhook "n.example.com" webhookTypeMutating "/p" []
                                    None None true 1)) = Some ErrRulesEmpty.
Proof. apply Validate_no_rules. reflexivity. Defined.

(** X5: what the accessors return does not depend on the accessor calls made
    before: after any sequence of calls, GetName, GetPath, GetType and
    Validate answer as they would have on the descriptor as it was. *)
Theorem accessors_stable (l : list accessor) (w : admissionWebhook) :
  snd (GetName (calls l w)) = snd (GetName w) /\
  snd (GetPath (calls l w)) = snd (GetPath w) /\
  snd (GetType (calls l w)) = snd (GetType w) /\
  snd (Validate (calls l w)) = snd (Validate w).
Proof.
  destruct l as [ | a l ]; [ repeat split | ].
  rewrite calls_cons.
  assert (E : once_Do setDefaults (once_Do setDefaults w) = once_Do setDefaults w)
    by (apply once_Do_done, once_Do_sets_once).
  unfold GetName, GetPath, GetType, Validate. rewrite E. repeat split.
Qed.

(** * Further properties of the generator options *)

(** X6: after setDefault the port is positive, certDir and the two
    configuration names are not empty and the registry is not nil; a positive
    port, a non-empty certDir or name and a non-nil registry are kept as
    given, and secret is never touched. *)
Theorem setDefault_fills (o : generatorOptions) :
  0 < port (setDefault o) /\
  certDir (setDefault o) <> "" /\
  mutatingWebhookConfigName (setDefault o) <> "" /\
  validatingWebhookConfigName (setDefault o) <> "" /\
  registry (setDefault o) = Some (entries o) /\
  secret (setDefault o) = secret o /\
  (0 < port o -> port (setDefault o) = port o) /\
  (port o <= 0 -> port (setDefault o) = 443) /\
  (certDir o <> "" -> certDir (setDefault o) = certDir o) /\
  (mutatingWebhookConfigName o <> "" ->
   mutatingWebhookConfigName (setDefault o) = mutatingWebhookConfigName o) /\
  (validatingWebhookConfigName o <> "" ->
   validatingWebhookConfigName (setDefault o) = validatingWebhookConfigName o).
Proof.
  unfold setDefault, entries; simpl.
  repeat split.
  - destruct (port o <=? 0) eqn:E; [ lia | apply Z.leb_gt in E; lia ].
  - destruct (len_string (certDir o) =? 0) eqn:E;
      [ discriminate | now apply len_string_0_false ].
  - destruct (len_string (mutatingWebhookConfigName o) =? 0) eqn:E;
      [ discriminate | now apply len_string_0_false ].
  - destruct (len_string (validatingWebhookConfigName o) =? 0) eqn:E;
      [ discriminate | now apply len_string_0_false ].
  - now destruct (registry o).
  - intro H. destruct (port o <=? 0) eqn:E; [ apply Z.leb_le in E; lia | reflexivity ].
  - intro H. apply Z.leb_le in H. now rewrite H.
  - intro H. apply len_string_0_false in H. now rewrite H.
  - intro H. apply len_string_0_false in H. now rewrite H.
  - intro H. apply len_string_0_false in H. now rewrite H.
Qed.

(** X7: setDefault is idempotent: a second run changes nothing. *)
Theorem setDefault_idempotent (o : generatorOptions) :
  setDefault (setDefault o) = setDefault o.
Proof.
  destruct o as [reg prt cd mn vn sec svc hst].
  unfold setDefault; simpl.
  f_equal.
  - now destruct reg.
  - destruct (prt <=? 0) eqn:E; [ reflexivity | now rewrite E ].
  - destruct (len_string cd =? 0) eqn:E; [ reflexivity | now rewrite E ].
  - destruct (len_string mn =? 0) eqn:E; [ reflexivity | now rewrite E ].
  - destruct (len_string vn =? 0) eqn:E; [ reflexivity | now rewrite E ].
  - destruct hst, svc; reflexivity.
Qed.

Lemma service_client_config (o : generatorOptions) (sv : service_t) (p : string) :
  service o = Some sv -> host o = None ->
  getClientConfigWithPath o p
  = (Some (K8s.mkClientConfig None
             (Some (K8s.mkServiceReference (service_namespace sv) (service_name sv)
                                           (Some p)))
             []),
     None).
Proof.
  intros Hs Hh. unfold getClientConfigWithPath, getClientConfig.
  rewrite Hs, Hh. reflexivity.
Qed.

(** X8: with a service set and no host, the client configuration for a path
    is a service reference with the service's name and namespace and the path
    exactly as given (no URL, no escaping, no error), for every path. *)
Theorem getClientConfigWithPath_service (o : generatorOptions) (sv : service_t) (p : string) :
  service o = Some sv -> host o = None ->
  getClientConfigWithPath o p
  = (Some (K8s.mkClientConfig None
             (Some (K8s.mkServiceReference (service_namespace sv) (service_name sv)
                                           (Some p)))
             []),
     None).
Proof.
  intros Hs Hh. unfold getClientConfigWithPath, getClientConfig.
  rewrite Hs, Hh. reflexivity.
Qed.

Definition service_only_options : generatorOptions :=
  mkOptions None 0 "" "" "" None (Some example_service) None.

Lemma getClientConfigWithPath_service_witness :
  getClientConfigWithPath service_only_options "/any path?"
  = (Some (K8s.mkClientConfig None
             (Some (K8s.mkServiceReference "system" "webhook" (Some "/any path?")))
             []),
     None).
Proof.
  exact (getClientConfigWithPath_service service_only_options example_service
           "/any path?" eq_refl eq_refl).
Defined.

(** X9: with both a host and a service set, no client configuration is
    built: for every path the call returns a nil configuration and the
    conflict error. *)
Theorem getClientConfigWithPath_conflict (o : generatorOptions) (h : string)
        (sv : service_t) (p : string) :
  host o = Some h -> service o = Some sv ->
  getClientConfig o = Err ErrURLAndService /\
  getClientConfigWithPath o p = (None, Some ErrURLAndService).
Proof.
  intros Hh Hs. unfold getClientConfigWithPath, getClientConfig.
  rewrite Hh, Hs. split; reflexivity.
Qed.

Lemma getClientConfigWithPath_conflict_witness :
  getClientConfig conflicting_options = Err ErrURLAndService /\
  getClientConfigWithPath conflicting_options "/mutate-pods"
  = (None, Some ErrURLAndService).
Proof.
  exact (getClientConfigWithPath_conflict conflicting_options "localhost"
           example_service "/mutate-pods" eq_refl eq_refl).
Defined.

Lemma setPath_error_path_independent (cc : K8s.WebhookClientConfig) (p p' : string) :
  snd (setPath cc p) = snd (setPath cc p').
Proof.
  unfold setPath. destruct (K8s.cc_URL cc) as [ raw | ].
  - destruct (url.Parse raw); [ | reflexivity ].
    cbn [K8s.cc_Service]. now destruct (K8s.cc_Service cc).
  - now destruct (K8s.cc_Service cc).
Qed.

Lemma client_error_any_path (o : generatorOptions) (p p' : string) :
  snd (getClientConfigWithPath o p) = snd (getClientConfigWithPath o p').
Proof.
  unfold getClientConfigWithPath. destruct (getClientConfig o) as [ cc | e ];
    [ | reflexivity ].
  pose proof (setPath_error_path_independent cc p p') as H.
  destruct (setPath cc p), (setPath cc p'). exact H.
Qed.

(** X10: whether building a client configuration fails, and with which
    error, does not depend on the path: the conflict check and the parsing of
    the host URL both come before the path is used; and a failed call never
    comes with a URL that holds the path. *)
Theorem getClientConfigWithPath_error_path_independent
        (o : generatorOptions) (p p' : string) :
  snd (getClientConfigWithPath o p) = snd (getClientConfigWithPath o p') /\
  (snd (getClientConfigWithPath o p) <> None ->
   fst (getClientConfigWithPath o p) = fst (getClientConfigWithPath o p')).
Proof.
  split; [ apply client_error_any_path | ].
  unfold getClientConfigWithPath, setPath.
  destruct (getClientConfig o) as [ cc | e ]; [ | reflexivity ].
  destruct (K8s.cc_URL cc) as [ raw | ].
  - destruct (url.Parse raw); [ | reflexivity ].
    cbn [K8s.cc_Service]. destruct (K8s.cc_Service cc); simpl; congruence.
  - destruct (K8s.cc_Service cc); simpl; congruence.
Qed.

(** X11: a client configuration never holds both a URL and a service
    reference; it holds a URL exactly when a host is set and a service
    reference exactly when a service is set. *)
Theorem getClientConfigWithPath_one_target (o : generatorOptions) (p : string)
        (cc : K8s.WebhookClientConfig) :
  getClientConfigWithPath o p = (Some cc, None) ->
  ~ (K8s.cc_URL cc <> None /\ K8s.cc_Service cc <> None) /\
  (K8s.cc_URL cc <> None <-> host o <> None) /\
  (K8s.cc_Service cc <> None <-> service o <> None).
Proof.
  unfold getClientConfigWithPath, getClientConfig, setPath.
  destruct (host o) as [ h | ], (service o) as [ sv | ];
    cbn [isNil negb andb K8s.cc_URL K8s.cc_Service K8s.cc_CABundle];
    try discriminate.
  - destruct (url.Parse _); [ | discriminate ].
    intros [= <-]. simpl. intuition congruence.
  - intros [= <-]. simpl. intuition congruence.
  - intros [= <-]. simpl. intuition congruence.
Qed.

Lemma getClientConfigWithPath_one_target_witness :
  K8s.cc_URL (K8s.mkClientConfig (Some "https://localhost:443/validate-pods") None [])
  <> None <-> host (host_options "localhost" 443) <> None.
Proof.
  exact (proj1 (proj2 (getClientConfigWithPath_one_target
                         (host_options "localhost" 443) "/validate-pods"
                         (K8s.mkClientConfig (Some "https://localhost:443/validate-pods")
                                             None [])
                         eq_refl))).
Defined.

(** * Further properties of Generate *)

(** The error of the first descriptor, in the order visited, that does not
    validate. *)
Fixpoint first_invalid (l : registry_t) : option error :=
  match l with
  | [] => None
  | (_, w) :: l' =>
      match snd (Validate w) with
      | Some e => Some e
      | None => first_invalid l'
      end
  end.

Lemma validate_range_first_invalid (l : registry_t) :
  validate_range l =
  match first_invalid l with
  | Some e => Err e
  | None => Ok (map defaulted_entry l)
  end.
Proof.
  induction l as [ | [p w] l IH ]; [ reflexivity | ].
  cbn [validate_range first_invalid map].
  pose proof (Validate_fst w) as Hf.
  destruct (Validate w) as [w' [e | ]]; simpl in *; [ reflexivity | ].
  rewrite IH. subst w'. now destruct (first_invalid l).
Qed.

Lemma first_invalid_None (l : registry_t) :
  first_invalid l = None <-> Forall (fun pw => valid (snd pw)) l.
Proof.
  induction l as [ | [p w] l IH ]; simpl.
  - split; constructor.
  - unfold valid at 1. destruct (snd (Validate w)) eqn:E.
    + split; [ discriminate | ]. intro H. inversion H as [ | ? ? Hw _ ]; subst.
      unfold valid in Hw. simpl in Hw. congruence.
    + rewrite IH. split.
      * intro H. constructor; assumption.
      * intro H. now inversion H.
Qed.

Lemma first_invalid_Some (l : registry_t) (e : error) :
  first_invalid l = Some e -> exists p w, In (p, w) l /\ snd (Validate w) = Some e.
Proof.
  induction l as [ | [p w] l IH ]; simpl; [ discriminate | ].
  destruct (snd (Validate w)) eqn:E.
  - intros [= <-]. exists p, w. split; [ now left | assumption ].
  - intro H. destruct (IH H) as (p' & w' & Hin & Hv). exists p', w'. split; [ now right | assumption ].
Qed.

Lemma Generate_validation_error (f1 f2 f3 : mapOrder) (o : generatorOptions) (e : error) :
  first_invalid (f1 (entries o)) = Some e -> output (Generate f1 f2 f3 o) = Err e.
Proof.
  intro H. unfold Generate, whConfigs.
  now rewrite entries_setDefault, validate_range_first_invalid, H.
Qed.

(** X12: Generate validates every descriptor before it builds anything: if
    some registered descriptor does not validate, Generate returns no object
    but the validation error of the first such descriptor in the order the
    registry is visited. *)
Theorem Generate_fails_on_invalid (f1 f2 f3 : mapOrder) (o : generatorOptions)
        (p : string) (w : admissionWebhook) :
  range_ok f1 -> In (p, w) (entries o) -> ~ valid w ->
  exists p' w' e,
    In (p', w') (entries o) /\ snd (Validate w') = Some e /\
    first_invalid (f1 (entries o)) = Some e /\
    output (Generate f1 f2 f3 o) = Err e.
Proof.
  intros F1 Hin Hw.
  destruct (first_invalid (f1 (entries o))) as [ e | ] eqn:E.
  - destruct (first_invalid_Some _ e E) as (p' & w' & Hin' & Hv).
    exists p', w', e. repeat split; try assumption.
    + eapply Permutation_in; [ apply F1 | exact Hin' ].
    + now apply Generate_validation_error.
  - exfalso. apply first_invalid_None in E.
    apply (Forall_perm_iff _ _ _ (F1 (entries o))) in E.
    rewrite Forall_forall in E. exact (Hw (E _ Hin)).
Qed.

Definition invalid_options : generatorOptions :=
  mkOptions (Some [("/ok", named_mutating "ok.example.com" "/ok");
                   ("/bad", mkAdmissionWebhook "bad.example.com" webhookTypeMutating "/bad"
                                               [] None None false 0)])
            0 "" "" "" None None None.

Lemma Generate_fails_on_invalid_witness :
  exists p' w' e,
    In (p', w') (entries invalid_options) /\ snd (Validate w') = Some e /\
    first_invalid (range_rev (entries invalid_options)) = Some e /\
    output (Generate range_rev range_id range_id invalid_options) = Err e.
Proof.
  apply (Generate_fails_on_invalid range_rev range_id range_id invalid_options "/bad"
           (mkAdmissionWebhook "bad.example.com" webhookTypeMutating "/bad"
                               [] None None false 0)).
  - exact range_rev_ok.
  - right. now left.
  - discriminate.
Defined.

(** The error, if any, of building a client configuration. *)
Definition client_error (o : generatorOptions) : option error :=
  snd (getClientConfigWithPath o "").

Lemma client_error_path (o : generatorOptions) (p : string) :
  snd (getClientConfigWithPath o p) = client_error o.
Proof. apply client_error_any_path. Qed.

Lemma reachable_iff (o : generatorOptions) (ty : webhookType) (pw : string * admissionWebhook) :
  reachable o ty pw <->
  (webhookType_eqb (t (snd pw)) ty = true -> client_error o = None).
Proof.
  unfold reachable. split; intros H Hty; specialize (H Hty).
  - destruct H as (cc & H). rewrite <- (client_error_path o (fst pw)). now rewrite H.
  - rewrite <- (client_error_path o (fst pw)) in H.
    destruct (getClientConfigWithPath_cases o (fst pw)) as [ Hc | (x & err & Hc) ];
      [ exact Hc | ].
    rewrite Hc in H. discriminate H.
Qed.

Lemma defaulted_entry_kind (pw : string * admissionWebhook) :
  t (snd (defaulted_entry pw)) = t (snd pw).
Proof. unfold defaulted_entry. simpl. now destruct (once_Do_fields (snd pw)). Qed.

(** X13: Generate succeeds exactly when every registered descriptor
    validates and, unless the registry is empty, a client configuration can be
    built from the defaulted options; the orders in which the registry is
    visited play no part. *)
Theorem Generate_succeeds_iff (f1 f2 f3 : mapOrder) (o : generatorOptions) :
  range_ok f1 -> range_ok f2 -> range_ok f3 ->
  ((exists o' objs, Generate f1 f2 f3 o = Ok (o', objs)) <->
   Forall (fun pw => valid (snd pw)) (entries o) /\
   (entries o = [] \/ client_error (setDefault o) = None)).
Proof.
  intros F1 F2 F3. split.
  - intros (o' & objs & H).
    apply Generate_Ok in H as [Hs _]; try assumption.
    apply run_succeeds_iff in Hs as (Hv & Hm & Hva); try assumption.
    split; [ assumption | ].
    destruct (entries o) as [ | [p w] l ] eqn:E; [ now left | right ].
    unfold defaulted_entries in Hm, Hva. rewrite E in Hm, Hva.
    inversion Hv as [ | ? ? Hw _ ]; subst. simpl in Hw.
    inversion Hm as [ | ? ? Hm1 _ ]; subst. inversion Hva as [ | ? ? Hva1 _ ]; subst.
    pose proof (proj1 (reachable_iff _ _ _) Hm1) as Hm2.
    pose proof (proj1 (reachable_iff _ _ _) Hva1) as Hva2.
    rewrite defaulted_entry_kind in Hm2, Hva2. simpl in Hm2, Hva2.
    destruct (valid_supported w Hw) as [Ht | Ht]; rewrite Ht in *;
      [ now apply Hm2 | now apply Hva2 ].
  - intros (Hv & Hc).
    assert (Hr : forall ty, Forall (reachable (setDefault o) ty) (defaulted_entries o)).
    { intro ty. apply Forall_forall. intros pw Hin. apply reachable_iff. intros _.
      destruct Hc as [Hc | Hc]; [ | exact Hc ].
      unfold defaulted_entries in Hin. rewrite Hc in Hin. destruct Hin. }
    destruct (Generate_complete f1 f2 f3 o F2 F3) as (o' & H).
    + apply run_succeeds_iff; try assumption. repeat split; [ assumption | apply Hr | apply Hr ].
    + eauto.
Qed.

Lemma Generate_succeeds_iff_witness :
  exists o' objs, Generate range_id range_rev range_id b_then_a_options = Ok (o', objs).
Proof.
  apply (Generate_succeeds_iff range_id range_rev range_id b_then_a_options
           range_id_ok range_rev_ok range_id_ok).
  split.
  - repeat constructor.
  - right. reflexivity.
Defined.

Definition of_kind (ty : webhookType) (pw : string * admissionWebhook) : bool :=
  webhookType_eqb (t (snd pw)) ty.

Lemma webhooks_range_client_error (o : generatorOptions) (ty : webhookType)
      (l : registry_t) (e : error) :
  client_error o = Some e -> Forall done l ->
  webhooks_range o ty l =
  if existsb (of_kind ty) l then Err e else Ok (map (touch o ty) l, []).
Proof.
  intros He. induction l as [ | [p w] l IH ]; intro Hd; [ reflexivity | ].
  inversion Hd as [ | ? ? Hw Hl ]; subst. unfold done in Hw. simpl in Hw.
  cbn [webhooks_range existsb map]. rewrite (GetType_done w Hw), (IH Hl).
  change (of_kind ty (p, w)) with (webhookType_eqb (t w) ty).
  change (touch o ty (p, w))
    with (if webhookType_eqb (t w) ty then (p, with_selector o w) else (p, w)).
  destruct (webhookType_eqb (t w) ty) eqn:Hty; cbn [negb orb].
  - pose proof (client_error_path o p) as Hp. rewrite He in Hp.
    destruct (getClientConfigWithPath o p) as [x err] eqn:Hc. simpl in Hp. subst err.
    now rewrite (admissionWebhook_entry_Err o p w x e Hc).
  - now destruct (existsb (of_kind ty) l).
Qed.

Lemma existsb_perm (f : string * admissionWebhook -> bool) (l l' : registry_t) :
  Permutation l l' -> existsb f l = existsb f l'.
Proof.
  intro H. destruct (existsb f l') eqn:E.
  - apply existsb_exists in E as (x & Hin & Hx). apply existsb_exists.
    exists x. split; [ | assumption ]. eapply Permutation_in; [ symmetry; exact H | exact Hin ].
  - destruct (existsb f l) eqn:E'; [ | reflexivity ].
    apply existsb_exists in E' as (x & Hin & Hx).
    assert (existsb f l' = true)
      by (apply existsb_exists; exists x; split;
          [ eapply Permutation_in; [ exact H | exact Hin ] | assumption ]).
    congruence.
Qed.

Lemma of_kind_defaulted (ty : webhookType) (l : registry_t) :
  existsb (of_kind ty) (map defaulted_entry l) = existsb (of_kind ty) l.
Proof.
  induction l as [ | pw l IH ]; [ reflexivity | ].
  simpl. unfold of_kind at 1 3. now rewrite defaulted_entry_kind, IH.
Qed.

Lemma of_kind_touch (o : generatorOptions) (ty ty' : webhookType) (l : registry_t) :
  existsb (of_kind ty) (map (touch o ty') l) = existsb (of_kind ty) l.
Proof.
  induction l as [ | [p w] l IH ]; [ reflexivity | ].
  simpl. rewrite IH. f_equal. unfold of_kind, touch. cbn [fst snd].
  destruct (webhookType_eqb (t w) ty'); [ | reflexivity ].
  cbn [snd]. now destruct (with_selector_fields o w) as (_ & -> & _).
Qed.

(** X14: when every registered descriptor validates, the registry is not
    empty and no client configuration can be built (host and service both
    set, or a host that does not parse), Generate returns no object but the
    error of the client configuration, in whatever order the registry is
    visited. *)
Theorem Generate_client_error (f1 f2 f3 : mapOrder) (o : generatorOptions) (e : error) :
  range_ok f1 -> range_ok f2 -> range_ok f3 ->
  Forall (fun pw => valid (snd pw)) (entries o) -> entries o <> [] ->
  client_error (setDefault o) = Some e ->
  output (Generate f1 f2 f3 o) = Err e.
Proof.
  intros F1 F2 F3 Hv Hne He. unfold Generate, whConfigs.
  rewrite entries_setDefault, validate_range_first_invalid.
  replace (first_invalid (f1 (entries o))) with (@None error)
    by (symmetry; apply first_invalid_None;
        now apply (Forall_perm_iff _ _ _ (F1 (entries o)))).
  fold (visited1 f1 o).
  unfold mutatingWHConfigs. rewrite entries_set_registry. fold (visited2 f1 f2 o).
  match goal with
  | |- context [ webhooks_range ?o1 webhookTypeMutating _ ] =>
      rewrite (webhooks_range_client_error o1 webhookTypeMutating (visited2 f1 f2 o) e He)
        by now apply visited2_done
  end.
  rewrite (existsb_perm _ _ _ (visited2_perm f1 f2 o F1 F2)).
  unfold defaulted_entries. rewrite of_kind_defaulted.
  destruct (existsb (of_kind webhookTypeMutating) (entries o)) eqn:Em;
    [ reflexivity | ].
  change (0 <? len (sort_Slice [])) with false. cbv iota.
  unfold validatingWHConfigs. rewrite entries_set_registry.
  change (f3 _) with (visited3 f1 f2 f3 o).
  match goal with
  | |- context [ webhooks_range ?o2 webhookTypeValidating _ ] =>
      rewrite (webhooks_range_client_error o2 webhookTypeValidating
                 (visited3 f1 f2 f3 o) e He)
        by now apply visited3_done
  end.
  rewrite (existsb_perm _ _ _ (visited3_perm f1 f2 f3 o F1 F2 F3)).
  unfold defaulted_entries. rewrite of_kind_touch, of_kind_defaulted.
  destruct (existsb (of_kind webhookTypeValidating) (entries o)) eqn:Eva;
    [ reflexivity | ].
  exfalso. destruct (entries o) as [ | [p w] l ]; [ now apply Hne | ].
  inversion Hv as [ | ? ? Hw _ ]; subst. simpl in Hw, Em, Eva.
  apply orb_false_iff in Em as [Em _]. apply orb_false_iff in Eva as [Eva _].
  unfold of_kind in Em, Eva. simpl in Em, Eva.
  destruct (valid_supported w Hw) as [Ht | Ht]; rewrite Ht in *; discriminate.
Qed.

Definition conflicting_registered_options : generatorOptions :=
  mkOptions (Some [("/b", named_mutating "b.example.com" "/b")])
            443 "" "" "" None (Some example_service) (Some "localhost").

Lemma Generate_client_error_witness :
  output (Generate range_id range_id range_id conflicting_registered_options)
  = Err ErrURLAndService.
Proof.
  apply Generate_client_error; try exact range_id_ok.
  - repeat constructor.
  - discriminate.
  - reflexivity.
Defined.

Lemma entry_names_eq (o : generatorOptions) (ty : webhookType) (l : registry_t) :
  Forall (reachable o ty) (map defaulted_entry l) ->
  map K8s.wh_Name (flat_map (entries_of o ty) (map defaulted_entry l))
  = names_of_kind ty l.
Proof.
  unfold names_of_kind. induction l as [ | [p w] l IH ]; intro H; [ reflexivity | ].
  cbn [map flat_map filter] in *. inversion H as [ | ? ? Hr Hl ]; subst.
  rewrite map_app, (IH Hl).
  unfold reachable, defaulted_entry in Hr. cbn [fst snd] in Hr.
  unfold entries_of, defaulted_entry. cbn [fst snd].
  destruct (once_Do_fields w) as (Ht & _). rewrite Ht in *.
  destruct (webhookType_eqb (t w) ty); [ | reflexivity ].
  destruct (Hr eq_refl) as (cc & ->). simpl.
  now destruct (with_selector_fields o (once_Do setDefaults w)) as (-> & _).
Qed.

Lemma kinds_partition (l : registry_t) :
  Forall (fun pw => supported (t (snd pw))) l ->
  (List.length (filter (of_kind webhookTypeMutating) l) +
   List.length (filter (of_kind webhookTypeValidating) l))%nat = List.length l.
Proof.
  induction l as [ | [p w] l IH ]; intro H; [ reflexivity | ].
  inversion H as [ | ? ? Hw Hl ]; subst. simpl in Hw. specialize (IH Hl).
  cbn [filter].
  change (of_kind webhookTypeMutating (p, w))
    with (webhookType_eqb (t w) webhookTypeMutating).
  change (of_kind webhookTypeValidating (p, w))
    with (webhookType_eqb (t w) webhookTypeValidating).
  destruct Hw as [-> | ->]; simpl; lia.
Qed.

(** X15: a successful Generate returns, in this order, a
    MutatingWebhookConfiguration if a mutating descriptor is registered, a
    ValidatingWebhookConfiguration if a validating one is, and what getService
    returns; the names of the entries of each configuration are, up to order,
    the names of the registered descriptors of that kind, so every registered
    descriptor gives exactly one entry. *)
Theorem Generate_objects (f1 f2 f3 : mapOrder) (o o' : generatorOptions)
        (objs : list runtime_Object) :
  range_ok f1 -> range_ok f2 -> range_ok f3 ->
  Generate f1 f2 f3 o = Ok (o', objs) ->
  exists whsM whsV,
    objs = (mutating_objects (setDefault o) whsM ++
            validating_objects (setDefault o) whsV ++
            [getService (setDefault o)])%list /\
    Permutation (map K8s.wh_Name whsM) (names_of_kind webhookTypeMutating (entries o)) /\
    Permutation (map K8s.wh_Name whsV) (names_of_kind webhookTypeValidating (entries o)) /\
    emitted objs = (whsM ++ whsV)%list /\
    List.length (emitted objs) = List.length (entries o).
Proof.
  intros F1 F2 F3 H.
  apply Generate_Ok in H as [Hs ->]; try assumption.
  apply run_succeeds_iff in Hs as (Hv & Hm & Hva); try assumption.
  unfold run_objects.
  set (whsM := sort_Slice (flat_map _ (visited2 f1 f2 o))).
  set (whsV := sort_Slice (flat_map _ (visited3 f1 f2 f3 o))).
  assert (PM : Permutation (map K8s.wh_Name whsM)
                           (names_of_kind webhookTypeMutating (entries o))).
  { rewrite <- (entry_names_eq (setDefault o) _ _ Hm). apply Permutation_map.
    eapply Permutation_trans; [ apply sort_Slice_perm | ].
    now apply mutating_entries_perm. }
  assert (PV : Permutation (map K8s.wh_Name whsV)
                           (names_of_kind webhookTypeValidating (entries o))).
  { rewrite <- (entry_names_eq (setDefault o) _ _ Hva). apply Permutation_map.
    eapply Permutation_trans; [ apply sort_Slice_perm | ].
    now apply validating_entries_perm. }
  assert (Em : emitted (mutating_objects (setDefault o) whsM ++
                        validating_objects (setDefault o) whsV ++
                        [getService (setDefault o)]) = (whsM ++ whsV)%list).
  { now rewrite !emitted_app, emitted_mutating_objects, emitted_validating_objects,
                emitted_getService, app_nil_r. }
  exists whsM, whsV. repeat split; try assumption.
  rewrite Em, length_app.
  rewrite <- (length_map K8s.wh_Name whsM), <- (length_map K8s.wh_Name whsV).
  rewrite (Permutation_length PM), (Permutation_length PV).
  unfold names_of_kind. rewrite !length_map.
  apply (kinds_partition (entries o)).
  eapply Forall_impl; [ | exact Hv ]. intros pw. apply valid_supported.
Qed.

Definition named_validating (n p : string) : admissionWebhook :=
  mkAdmissionWebhook n webhookTypeValidating p [pods_rule] None None false 0.

(** One mutating and one validating descriptor. *)
Definition one_of_each_options : generatorOptions :=
  mkOptions (Some [("/mutate-pods", named_mutating "" "");
                   ("/validate-pods", named_validating "" "")])
            0 "" "" "" None None None.

Lemma Generate_objects_witness :
  match Generate range_id range_id range_id one_of_each_options with
  | Ok (_, objs) =>
      exists whsM whsV,
        objs = (mutating_objects (setDefault one_of_each_options) whsM ++
                validating_objects (setDefault one_of_each_options) whsV ++
                [getService (setDefault one_of_each_options)])%list /\
        Permutation (map K8s.wh_Name whsM) ["mutatepods.example.com"] /\
        Permutation (map K8s.wh_Name whsV) ["validatepods.example.com"] /\
        emitted objs = (whsM ++ whsV)%list /\
        List.length (emitted objs) = 2%nat
  | Err _ => False
  end.
Proof.
  destruct (Generate range_id range_id range_id one_of_each_options)
    as [ [o1 objs1] | e ] eqn:E; [ | vm_compute in E; discriminate E ].
  exact (Generate_objects range_id range_id range_id one_of_each_options o1 objs1
           range_id_ok range_id_ok range_id_ok E).
Defined.

Definition is_config (x : runtime_Object) : Prop :=
  match x with
  | Some (K8s.MutatingWebhookConfiguration _ _ _) => True
  | Some (K8s.ValidatingWebhookConfiguration _ _ _) => True
  | _ => False
  end.

(** X16: with a service configured, the last object of a successful Generate
    is the Service: its name, namespace and selector are those of the
    configured service, and its one port maps port 443 to the defaulted port
    of the options (443 unless a positive port was given); at most two
    objects come before it, all of them webhook configurations. *)
Theorem Generate_service_object (f1 f2 f3 : mapOrder) (o o' : generatorOptions)
        (objs : list runtime_Object) (sv : service_t) :
  range_ok f2 -> range_ok f3 ->
  service o = Some sv -> Generate f1 f2 f3 o = Ok (o', objs) ->
  exists cfgs,
    objs = (cfgs ++
            [Some (K8s.Service
                     (K8s.mkTypeMeta "v1" "Service")
                     (K8s.mkObjectMeta (service_name sv) (service_namespace sv)
                        [("service.alpha.kubebuilder.io/serving-cert-secret-name",
                          "webhook-cert")])
                     (K8s.mkServiceSpec (selectors sv)
                        [K8s.mkServicePort 443
                           (if port o <=? 0 then 443 else port o)]))])%list /\
    Forall is_config cfgs /\ (List.length cfgs <= 2)%nat.
Proof.
  intros F2 F3 Hs H. apply Generate_Ok in H as [_ ->]; try assumption.
  unfold run_objects. rewrite app_assoc. eexists. split; [ | split ].
  - f_equal. unfold getService.
    replace (service (setDefault o)) with (service o) by reflexivity.
    rewrite Hs. reflexivity.
  - unfold mutating_objects, validating_objects.
    repeat match goal with |- context [ if ?c then _ else _ ] => destruct c end;
      repeat constructor.
  - unfold mutating_objects, validating_objects.
    repeat match goal with |- context [ if ?c then _ else _ ] => destruct c end;
      simpl; lia.
Qed.

Lemma Generate_service_object_witness :
  match Generate range_id range_id range_id service_options with
  | Ok (_, objs) =>
      exists cfgs,
        objs = (cfgs ++
                [Some (K8s.Service
                         (K8s.mkTypeMeta "v1" "Service")
                         (K8s.mkObjectMeta "webhook" "system"
                            [("service.alpha.kubebuilder.io/serving-cert-secret-name",
                              "webhook-cert")])
                         (K8s.mkServiceSpec [] [K8s.mkServicePort 443 443]))])%list /\
        Forall is_config cfgs /\ (List.length cfgs <= 2)%nat
  | Err _ => False
  end.
Proof.
  destruct (Generate range_id range_id range_id service_options)
    as [ [o1 objs1] | e ] eqn:E; [ | vm_compute in E; discriminate E ].
  exact (Generate_service_object range_id range_id range_id service_options o1 objs1
           example_service range_id_ok range_id_ok eq_refl E).
Defined.

Lemma Generate_Ok_options (f1 f2 f3 : mapOrder) (o o' : generatorOptions)
      (objs : list runtime_Object) :
  range_ok f2 -> range_ok f3 ->
  Generate f1 f2 f3 o = Ok (o', objs) ->
  o' = set_registry (setDefault o)
         (Some (map (touch (setDefault o) webhookTypeValidating) (visited3 f1 f2 f3 o))).
Proof.
  intros F2 F3. unfold Generate, whConfigs. rewrite entries_setDefault.
  fold (visited1 f1 o).
  destruct (validate_range (visited1 f1 o)) as [ r1 | ] eqn:H1; [ | discriminate ].
  apply validate_range_Ok in H1 as [-> Hv].
  destruct (mutatingWHConfigs f2 _) as [ [o2 obj2] | ] eqn:H2; [ | discriminate ].
  apply mutatingWHConfigs_Ok in H2 as (-> & _ & _);
    [ | rewrite entries_set_registry; now apply visited2_done ].
  destruct (validatingWHConfigs f3 _) as [ [o3 obj3] | ] eqn:H3; [ | discriminate ].
  apply validatingWHConfigs_Ok in H3 as (-> & _ & _);
    [ | rewrite entries_set_registry; now apply visited3_done ].
  intro E. injection E as <- _. reflexivity.
Qed.

Lemma touch_both (o : generatorOptions) (pw : string * admissionWebhook) :
  supported (t (snd pw)) ->
  touch o webhookTypeValidating (touch o webhookTypeMutating pw)
  = (fst pw, with_selector o (snd pw)).
Proof.
  destruct pw as [p w]. cbn [fst snd]. unfold touch. cbn [fst snd].
  intros [Ht | Ht]; rewrite Ht; cbn [webhookType_eqb fst snd].
  - destruct (with_selector_fields o w) as (_ & -> & _). now rewrite Ht.
  - now rewrite Ht.
Qed.

(** X17: a successful Generate leaves its mark on the options: they are
    defaulted as by setDefault, and the registry holds, at the same paths, the
    descriptors defaulted (their guard has run) and carrying the namespace
    selector that was put into their entries. *)
Theorem Generate_updates_options (f1 f2 f3 : mapOrder) (o o' : generatorOptions)
        (objs : list runtime_Object) :
  range_ok f1 -> range_ok f2 -> range_ok f3 ->
  Generate f1 f2 f3 o = Ok (o', objs) ->
  port o' = port (setDefault o) /\ host o' = host (setDefault o) /\
  service o' = service o /\ certDir o' = certDir (setDefault o) /\
  mutatingWebhookConfigName o' = mutatingWebhookConfigName (setDefault o) /\
  validatingWebhookConfigName o' = validatingWebhookConfigName (setDefault o) /\
  Permutation (entries o')
    (map (fun pw => (fst pw, with_selector (setDefault o) (once_Do setDefaults (snd pw))))
         (entries o)) /\
  Forall (fun pw => once (snd pw) = true) (entries o').
Proof.
  intros F1 F2 F3 H.
  pose proof (Generate_Ok_options f1 f2 f3 o o' objs F2 F3 H) as ->.
  apply Generate_Ok in H as [Hs _]; try assumption.
  apply run_succeeds_iff in Hs as (Hv & _ & _); try assumption.
  assert (HP : Permutation
                 (entries (set_registry (setDefault o)
                    (Some (map (touch (setDefault o) webhookTypeValidating)
                               (visited3 f1 f2 f3 o)))))
                 (map (fun pw => (fst pw, with_selector (setDefault o)
                                            (once_Do setDefaults (snd pw))))
                      (entries o))).
  { rewrite entries_set_registry.
    eapply Permutation_trans;
      [ apply Permutation_map, (visited3_perm f1 f2 f3 o F1 F2 F3) | ].
    unfold defaulted_entries. rewrite !map_map.
    apply Permutation_refl'. apply map_ext_in. intros pw Hin.
    rewrite touch_both; [ reflexivity | ].
    rewrite defaulted_entry_kind. apply valid_supported.
    rewrite Forall_forall in Hv. now apply Hv. }
  repeat split; try reflexivity; try exact HP.
  eapply Permutation_Forall; [ symmetry; exact HP | ].
  apply Forall_forall. intros pw Hin. apply in_map_iff in Hin as ([p w] & <- & Hin).
  cbn [fst snd].
  unfold with_selector. destruct (isNil _ && _); simpl; apply once_Do_sets_once.
Qed.

Lemma Generate_updates_options_witness :
  match Generate range_id range_id range_id service_options with
  | Ok (o', _) =>
      Permutation (entries o')
        [("/mutate-pods",
          mkAdmissionWebhook "mutatepods.example.com" webhookTypeMutating "/mutate-pods"
                             [pods_rule] None (Some default_namespaceSelector) true 1)]
  | Err _ => False
  end.
Proof.
  destruct (Generate range_id range_id range_id service_options)
    as [ [o1 objs1] | e ] eqn:E; [ | vm_compute in E; discriminate E ].
  exact (proj1 (proj2 (proj2 (proj2 (proj2 (proj2 (proj2
           (Generate_updates_options range_id range_id range_id service_options o1 objs1
              range_id_ok range_id_ok range_id_ok E)))))))).
Defined.

Lemma in_kind_entries (o : generatorOptions) (ty : webhookType) (e : K8s.Webhook) :
  In e (flat_map (entries_of (setDefault o) ty) (defaulted_entries o)) <->
  exists p w, In (p, w) (entries o) /\ t w = ty /\ assembled o p w e.
Proof.
  rewrite in_flat_map. unfold defaulted_entries. split.
  - intros (pw & Hin & He). apply in_map_iff in Hin as ([p w] & <- & Hin).
    apply in_entries_of_defaulted in He as [Ht He]. now exists p, w.
  - intros (p & w & Hin & Ht & He). exists (defaulted_entry (p, w)). split.
    + now apply in_map.
    + now apply in_entries_of_defaulted.
Qed.

(** X18: in a successful Generate, a MutatingWebhookConfiguration in the
    output is never empty, is named by the defaulted mutatingWebhookConfigName
    and holds exactly the entries assembled from the registered mutating
    descriptors; a ValidatingWebhookConfiguration likewise, for the validating
    descriptors (its certificate annotation has another key). *)
Theorem Generate_configurations (f1 f2 f3 : mapOrder) (o o' : generatorOptions)
        (objs : list runtime_Object) :
  range_ok f1 -> range_ok f2 -> range_ok f3 ->
  Generate f1 f2 f3 o = Ok (o', objs) ->
  (forall tm om whs,
      In (Some (K8s.MutatingWebhookConfiguration tm om whs)) objs ->
      whs <> [] /\
      tm = K8s.mkTypeMeta "admissionregistration.k8s.io/v1beta1"
                          "MutatingWebhookConfiguration" /\
      om = K8s.mkObjectMeta (mutatingWebhookConfigName (setDefault o)) ""
             [("admissionwebhook.alpha.kubebuilder.io/ca-secret-name", "webhook-cert")] /\
      (forall e, In e whs <->
                 exists p w, In (p, w) (entries o) /\ t w = webhookTypeMutating /\
                             assembled o p w e)) /\
  (forall tm om whs,
      In (Some (K8s.ValidatingWebhookConfiguration tm om whs)) objs ->
      whs <> [] /\
      tm = K8s.mkTypeMeta "admissionregistration.k8s.io/v1beta1"
                          "ValidatingWebhookConfiguration" /\
      om = K8s.mkObjectMeta (validatingWebhookConfigName (setDefault o)) ""
             [("admission.alpha.kubebuilder.io/ca-secret-name", "webhook-cert")] /\
      (forall e, In e whs <->
                 exists p w, In (p, w) (entries o) /\ t w = webhookTypeValidating /\
                             assembled o p w e)).
Proof.
  intros F1 F2 F3 H. apply Generate_Ok in H as [_ ->]; try assumption.
  unfold run_objects, mutating_objects, validating_objects, getService.
  split; intros tm om whs Hin; repeat rewrite in_app_iff in Hin.
  - destruct Hin as [Hin | [Hin | Hin]].
    + destruct (0 <? len _) eqn:Hlen; [ | destruct Hin ].
      destruct Hin as [[= <- <- <-] | []]. apply len_pos in Hlen.
      repeat split; try assumption; try reflexivity.
      * intro He. apply in_kind_entries.
        eapply Permutation_in; [ apply (mutating_entries_perm f1 f2 o F1 F2) | ].
        eapply Permutation_in; [ apply sort_Slice_perm | exact He ].
      * intro He. apply in_kind_entries in He.
        eapply Permutation_in; [ symmetry; apply sort_Slice_perm | ].
        eapply Permutation_in;
          [ symmetry; apply (mutating_entries_perm f1 f2 o F1 F2) | exact He ].
    + destruct (0 <? len _); [ | destruct Hin ]. destruct Hin as [[=] | []].
    + destruct (service (setDefault o)); destruct Hin as [[=] | []].
  - destruct Hin as [Hin | [Hin | Hin]].
    + destruct (0 <? len _); [ | destruct Hin ]. destruct Hin as [[=] | []].
    + destruct (0 <? len _) eqn:Hlen; [ | destruct Hin ].
      destruct Hin as [[= <- <- <-] | []]. apply len_pos in Hlen.
      repeat split; try assumption; try reflexivity.
      * intro He. apply in_kind_entries.
        eapply Permutation_in; [ apply (validating_entries_perm f1 f2 f3 o F1 F2 F3) | ].
        eapply Permutation_in; [ apply sort_Slice_perm | exact He ].
      * intro He. apply in_kind_entries in He.
        eapply Permutation_in; [ symmetry; apply sort_Slice_perm | ].
        eapply Permutation_in;
          [ symmetry; apply (validating_entries_perm f1 f2 f3 o F1 F2 F3) | exact He ].
    + destruct (service (setDefault o)); destruct Hin as [[=] | []].
Qed.

Lemma Generate_configurations_witness :
  match Generate range_id range_id range_id one_of_each_options with
  | Ok (_, objs) =>
      forall tm om whs,
        In (Some (K8s.ValidatingWebhookConfiguration tm om whs)) objs ->
        whs <> [] /\
        tm = K8s.mkTypeMeta "admissionregistration.k8s.io/v1beta1"
                            "ValidatingWebhookConfiguration" /\
        om = K8s.mkObjectMeta "validating-webhook-configuration" ""
               [("admission.alpha.kubebuilder.io/ca-secret-name", "webhook-cert")] /\
        (forall e, In e whs <->
                   exists p w, In (p, w) (entries one_of_each_options) /\
                               t w = webhookTypeValidating /\
                               assembled one_of_each_options p w e)
  | Err _ => False
  end.
Proof.
  destruct (Generate range_id range_id range_id one_of_each_options)
    as [ [o1 objs1] | e ] eqn:E; [ | vm_compute in E; discriminate E ].
  exact (proj2 (Generate_configurations range_id range_id range_id one_of_each_options
                  o1 objs1 range_id_ok range_id_ok range_id_ok E)).
Defined.

(** X19: with a service configured, every entry of a successful Generate
    points at that service, and the path of its service reference is the key
    under which the descriptor is registered, as given, whatever the
    descriptor's own path field holds. *)
Theorem Generate_service_entries (f1 f2 f3 : mapOrder) (o o' : generatorOptions)
        (objs : list runtime_Object) (sv : service_t) (e : K8s.Webhook) :
  range_ok f1 -> range_ok f2 -> range_ok f3 ->
  service o = Some sv -> Generate f1 f2 f3 o = Ok (o', objs) ->
  In e (emitted objs) ->
  exists p w,
    In (p, w) (entries o) /\
    K8s.wh_Name e = name (once_Do setDefaults w) /\
    K8s.wh_ClientConfig e
    = K8s.mkClientConfig None
        (Some (K8s.mkServiceReference (service_namespace sv) (service_name sv) (Some p)))
        [].
Proof.
  intros F1 F2 F3 Hs H Hin.
  apply (emitted_assembled f1 f2 f3 o o' objs F1 F2 F3 H) in Hin
    as (p & w & Hin & Hn & _ & _ & Hcc & _).
  exists p, w. repeat split; try assumption.
  assert (Hs' : service (setDefault o) = Some sv) by exact Hs.
  destruct (host (setDefault o)) as [ h | ] eqn:Hh.
  - unfold getClientConfigWithPath, getClientConfig in Hcc.
    rewrite Hh, Hs' in Hcc. discriminate Hcc.
  - rewrite (service_client_config (setDefault o) sv p Hs' Hh) in Hcc.
    now injection Hcc as <-.
Qed.

(** A descriptor registered under a key that is not its path. *)
Definition other_key_options : generatorOptions :=
  mkOptions (Some [("/registered here", named_mutating "m.example.com" "/mutate-pods")])
            0 "" "" "" None (Some example_service) None.

Lemma Generate_service_entries_witness :
  match Generate range_id range_id range_id other_key_options with
  | Ok (_, objs) =>
      forall e, In e (emitted objs) ->
      exists p w,
        In (p, w) (entries other_key_options) /\
        K8s.wh_Name e = name (once_Do setDefaults w) /\
        K8s.wh_ClientConfig e
        = K8s.mkClientConfig None
            (Some (K8s.mkServiceReference "system" "webhook" (Some p))) []
  | Err _ => False
  end.
Proof.
  destruct (Generate range_id range_id range_id other_key_options)
    as [ [o1 objs1] | e ] eqn:E; [ | vm_compute in E; discriminate E ].
  intros e He.
  exact (Generate_service_entries range_id range_id range_id other_key_options o1 objs1
           example_service e range_id_ok range_id_ok range_id_ok eq_refl E He).
Defined.

(** X20: for a descriptor of a kind that is neither Mutating nor Validating,
    path defaulting leaves an empty path empty even when a resource is there
    to build it from, an empty name still becomes ".example.com", and Validate
    on the descriptor not yet defaulted reports the kind, not the path. *)
Theorem setDefaults_unsupported_kind (w : admissionWebhook) (r : K8s.RuleWithOperations)
        (rs : list K8s.RuleWithOperations) (res : string) (ress : list string) :
  ~ supported (t w) -> path w = "" ->
  rules w = r :: rs -> K8s.Resources r = res :: ress ->
  path (setDefaults w) = "" /\
  (name w = "" -> name (setDefaults w) = ".example.com") /\
  (once w = false -> snd (Validate w) = Some (ErrUnsupportedType (t w))).
Proof.
  intros Hs Hp Hr Hres.
  destruct w as [n ty p rl fp ns o k]. simpl in *. subst p rl.
  assert (Hm : webhookType_eqb ty webhookTypeMutating = false)
    by (apply webhookType_eqb_neq; intro E; apply Hs; now left).
  assert (Hv : webhookType_eqb ty webhookTypeValidating = false)
    by (apply webhookType_eqb_neq; intro E; apply Hs; now right).
  unfold Validate, once_Do, setDefaults; simpl. rewrite Hres, Hm, Hv.
  split; [ | split ].
  - now destruct n.
  - now intros ->.
  - intros ->. destruct n as [ | c n ]; simpl; now rewrite Hm, Hv.
Qed.

Lemma setDefaults_unsupported_kind_witness :
  path (setDefaults (mkAdmissionWebhook "" (webhookTypeOther 0) "" [pods_rule]
                                        None None false 0)) = "".
Proof.
  apply (setDefaults_unsupported_kind
           (mkAdmissionWebhook "" (webhookTypeOther 0) "" [pods_rule] None None false 0)
           pods_rule [] "pods" []); try reflexivity.
  intros [H | H]; discriminate H.
Defined.

(** X21: with a plain host (bytes a URL host takes unescaped, no colon, no
    leading bracket), no service and a port that is not negative, building the
    client configuration never fails, whatever the path: the URL is
    "https://" host ":" port followed by the path as URL.String escapes it,
    after a slash if the escaped path does not start with one. *)
Theorem getClientConfigWithPath_any_path (o : generatorOptions) (h p : string) :
  host o = Some h -> service o = None -> 0 <= port o ->
  ClientConfigURL.host_plain h = true ->
  let esc := if String.eqb p "*" then "*" else url.escape p url.encodePath in
  let slash := match esc with
               | String c _ => if Ascii.eqb c "/" then "" else "/"
               | EmptyString => ""
               end in
  getClientConfigWithPath o p
  = (Some (K8s.mkClientConfig
             (Some ("https://" ++ h ++ ":" ++ strconv.Itoa (port o) ++ slash ++ esc))
             None []),
     None) /\
  client_error o = None.
Proof.
  intros Hh Hs Hport Hhost. split.
  - exact (ClientConfigURL.getClientConfigWithPath_plain_host o h p Hh Hs Hhost Hport).
  - unfold client_error.
    now rewrite (ClientConfigURL.getClientConfigWithPath_plain_host o h "" Hh Hs Hhost Hport).
Qed.

Lemma getClientConfigWithPath_any_path_witness :
  getClientConfigWithPath (host_options "localhost" 443) "pods?dry run"
  = (Some (K8s.mkClientConfig (Some "https://localhost:443/pods%3Fdry%20run") None []),
     None).
Proof.
  apply (getClientConfigWithPath_any_path (host_options "localhost" 443)
           "localhost" "pods?dry run");
    try reflexivity.
  simpl. lia.
Defined.
